(** * Interface: layout and per-frame drawing of data-driven UI elements

    A shallow embedding of [source/Interface.cpp] (Endless Sky) and the
    properties of it that the specification states.

    Conventions of the embedding.
    - A C++ [double] is a binary64 float: Rocq's primitive [float], with
      the IEEE operations of [PrimFloat].  [!x] and [if(x)] on a double
      test [x == 0.].
    - [int] counters and sizes that are never negative are [nat].
    - A pointer that may be null is an [option].
    - Output (draw calls, clickable zones, diagnostic traces) is threaded
      explicitly: each routine returns the calls it issued, in order. *)

From Stdlib Require Import ZArith String Ascii List Floats Lia Bool.
From stdpp Require Import base option list gmap strings.
Import ListNotations.

Local Open Scope string_scope.
Local Open Scope list_scope.

Set Warnings "-register-all".

Abbreviation double := float.

(** [!x] on a double. *)
Definition not_d (x : double) : bool := PrimFloat.eqb x 0%float.

(** [std::min(a, b)]: returns [b] if [b < a], otherwise [a]. *)
Definition std_min (a b : double) : double :=
  if PrimFloat.ltb b a then b else a.

(** [!p] on a pointer. *)
Definition is_null {A : Type} (p : option A) : bool :=
  match p with None => true | Some _ => false end.

(** ** Point *)

(** Modelled from the spec: Point.h is not part of the sources read here.
    A point is a pair of doubles with componentwise arithmetic. *)
Record Point : Type := mkPoint { X : double; Y : double }.

Module Pt.
Local Open Scope float_scope.

(** [Point()] *)
Definition zero : Point := mkPoint 0 0.
(** [p + q] *)
Definition add (p q : Point) : Point := mkPoint (X p + X q) (Y p + Y q).
(** [p - q] *)
Definition sub (p q : Point) : Point := mkPoint (X p - X q) (Y p - Y q).
(** [-p] *)
Definition opp (p : Point) : Point := mkPoint (- X p) (- Y p).
(** [p * q], componentwise *)
Definition mul (p q : Point) : Point := mkPoint (X p * X q) (Y p * Y q).
(** [s * p], a double times a point *)
Definition scale (s : double) (p : Point) : Point := mkPoint (s * X p) (s * Y p).
(** [p * s], a point times a double *)
Definition scale_r (p : Point) (s : double) : Point := mkPoint (X p * s) (Y p * s).
(** [abs(p)], componentwise *)
Definition abs (p : Point) : Point := mkPoint (PrimFloat.abs (X p)) (PrimFloat.abs (Y p)).
(** [!p]: both coordinates are zero *)
Definition is_zero (p : Point) : bool := not_d (X p) && not_d (Y p).
(** [p.Length()] *)
Definition Length (p : Point) : double := PrimFloat.sqrt (X p * X p + Y p * Y p).
End Pt.

(** ** Rectangle *)

(** Modelled from the spec: Rectangle.h is not part of the sources read
    here.  A rectangle is stored as its center and its dimensions; the
    constructor [Rectangle(center, dimensions)] is [mkRectangle]. *)
Record Rectangle : Type := mkRectangle { Center : Point; Dimensions : Point }.

Module Rect.
Local Open Scope float_scope.

(** [Rectangle()] *)
Definition zero : Rectangle := mkRectangle Pt.zero Pt.zero.
Definition Width (r : Rectangle) : double := X (Dimensions r).
Definition Height (r : Rectangle) : double := Y (Dimensions r).
Definition TopLeft (r : Rectangle) : Point :=
  Pt.sub (Center r) (Pt.scale 0.5 (Dimensions r)).
Definition BottomRight (r : Rectangle) : Point :=
  Pt.add (Center r) (Pt.scale 0.5 (Dimensions r)).
(** [r + offset]: the same rectangle, translated *)
Definition offset (r : Rectangle) (o : Point) : Rectangle :=
  mkRectangle (Pt.add (Center r) o) (Dimensions r).
(** [Rectangle::WithCorners(from, to)]: the corners in either order *)
Definition WithCorners (from to : Point) : Rectangle :=
  mkRectangle (Pt.scale 0.5 (Pt.add from to)) (Pt.abs (Pt.sub to from)).
(** [r.Contains(p)] *)
Definition Contains (r : Rectangle) (p : Point) : bool :=
  let d := Pt.scale 2 (Pt.abs (Pt.sub p (Center r))) in
  (X d <=? X (Dimensions r)) && (Y d <=? Y (Dimensions r)).
End Rect.

(** ** DataNode *)

(** Modelled from the spec: DataNode.h is not part of the sources read
    here.  A node is a line of tokens with child lines.  A token carries
    its text, which [Token(i)] returns, and the number [Value(i)] reads
    from it. *)
Record Token : Type := mkToken { text : string; number : double }.

Inductive DataNode : Type :=
  mkNode { tokens : list Token; children : list DataNode }.

Module Node.
Definition Size (n : DataNode) : nat := length (tokens n).
Definition Token (n : DataNode) (i : nat) : string :=
  match tokens n !! i with Some t => text t | None => "" end.
Definition Value (n : DataNode) (i : nat) : double :=
  match tokens n !! i with Some t => number t | None => 0%float end.
End Node.

(** A diagnostic written by [node.PrintTrace(message)]. *)
Record Trace : Type := mkTrace { message : string; where_ : DataNode }.

(** ** ParseAlignment *)

(** One iteration of the loop of [ParseAlignment], on the token at hand. *)
Definition ParseAlignment_token (node : DataNode) (tok : string)
    (st : Point * list Trace) : Point * list Trace :=
  let '(alignment, log) := st in
  if String.eqb tok "left" then (mkPoint (-1)%float (Y alignment), log)
  else if String.eqb tok "top" then (mkPoint (X alignment) (-1)%float, log)
  else if String.eqb tok "right" then (mkPoint 1%float (Y alignment), log)
  else if String.eqb tok "bottom" then (mkPoint (X alignment) 1%float, log)
  else (alignment, log ++ [mkTrace "Unrecognized interface element alignment:" node]).

(** The loop [for( ; i < node.Size(); ++i)] over the texts of the tokens
    from index [i] on. *)
Fixpoint ParseAlignment_loop (node : DataNode) (toks : list string)
    (st : Point * list Trace) : Point * list Trace :=
  match toks with
  | [] => st
  | tok :: rest => ParseAlignment_loop node rest (ParseAlignment_token node tok st)
  end.

(** [ParseAlignment(node, &alignment, i)]: the new value of [*alignment]
    and the traces printed. *)
Definition ParseAlignment (node : DataNode) (alignment : Point) (i : nat)
    : Point * list Trace :=
  ParseAlignment_loop node (map text (drop i (tokens node))) (alignment, []).

(** ** The collaborators of the layout engine *)

(** Modelled from the spec: Sprite.h is not part of the sources read
    here.  A sprite has a name and a width and height in pixels. *)
Record Sprite : Type :=
  mkSprite { sprite_name : string; sprite_Width : double; sprite_Height : double }.

(** Modelled from the spec: Color.h is not part of the sources read
    here.  [Color(i, a)] is the grey of intensity [i] and alpha [a]. *)
Record Color : Type := mkColor { red : double; green : double; blue : double; alpha : double }.

Definition Color_grey (i a : double) : Color := mkColor i i i a.

(** The process-wide registries and devices the file reads:
    [SpriteSet::Get], [GameData::Colors().Get], [FontSet::Get(size)]
    with [Width] and [Height], [Screen::Dimensions()], [UI::GetMouse()]. *)
Record Globals : Type := mkGlobals {
  SpriteSet_Get : string -> option Sprite;
  Colors_Get : string -> option Color;
  Font_Width : Z -> string -> double;
  Font_Height : Z -> double;
  Screen_Dimensions : Point;
  UI_GetMouse : Point;
  (* the member initialisers of Interface.h, which is not read here *)
  Default_fontSize : Z;
  Default_width : double
}.

(** Modelled from the spec: Information.h is not part of the sources read
    here.  The runtime value provider: what each query returns. *)
Record Information : Type := mkInformation {
  conditions : string -> bool;
  Info_BarValue : string -> double;
  Info_BarSegments : string -> double;
  Info_GetString : string -> string;
  Info_GetSprite : string -> option Sprite;
  Info_GetSpriteUnit : string -> Point;
  Info_GetSpriteFrame : string -> Z;
  Info_GetOutlineColor : Color
}.

(** Modelled from the spec: [info.HasCondition(name)] looks the condition
    up by name; the empty name is always true. *)
Definition HasCondition (info : Information) (name : string) : bool :=
  if String.eqb name "" then true else conditions info name.

(** The draw primitives, as the calls issued. *)
Inductive DrawCall : Type :=
| OutlineShader_Draw (sprite : Sprite) (pos size : Point) (color : Color)
    (unit : Point) (frame : Z)
| SpriteShader_Draw (sprite : Sprite) (pos : Point) (zoom : double)
| Font_Draw (size : Z) (str : string) (pos : Point) (color : Color)
| RingShader_Draw (pos : Point) (radius width value : double) (color : Color)
    (segments : double)
| LineShader_Draw (from to : Point) (width : double) (color : Color).

(** A panel, as the clickable zones added to it by [AddZone(rect, key)]. *)
Definition Panel : Type := list (Rectangle * ascii).

Definition AddZone (rect : Rectangle) (key : ascii) (panel : Panel) : Panel :=
  panel ++ [(rect, key)].

(** The activation states, [Element::INACTIVE], [ACTIVE] and [HOVER]. *)
Definition INACTIVE : nat := 0.
Definition ACTIVE : nat := 1.
Definition HOVER : nat := 2.

(** ** Element *)

(** The fields of the base class [Interface::Element]. *)
Record Element : Type := mkElement {
  bounds : Rectangle;
  alignment : Point;
  padding : Point;
  visibleIf : string;
  activeIf : string
}.

(** A default-constructed element. *)
Definition Element_new : Element :=
  mkElement Rect.zero Pt.zero Pt.zero "" "".

Definition set_bounds (b : Rectangle) (e : Element) : Element :=
  mkElement b (alignment e) (padding e) (visibleIf e) (activeIf e).
Definition set_alignment (a : Point) (e : Element) : Element :=
  mkElement (bounds e) a (padding e) (visibleIf e) (activeIf e).
Definition set_padding (p : Point) (e : Element) : Element :=
  mkElement (bounds e) (alignment e) p (visibleIf e) (activeIf e).

(** [SetConditions(visible, active)] *)
Definition SetConditions (visible active : string) (e : Element) : Element :=
  mkElement (bounds e) (alignment e) (padding e) visible active.

(** The virtual methods of [Element].  [K] is the type of the fields a
    subclass adds; the base fields are passed beside them.
    [ParseLine] returns the fields after the call and its result;
    [Draw] returns the draw calls it issued, or [None] when its loop has
    not finished within [fuel] iterations; [Place] returns the panel after
    the call ([None] is the null panel). *)
Class Kind (K : Type) : Type := {
  ParseLine : Globals -> DataNode -> K -> K * bool;
  NativeDimensions : Globals -> Element -> K -> Information -> nat -> Point;
  Draw : Element -> K -> Rectangle -> Information -> nat -> forall fuel : nat,
         option (list DrawCall);
  Place : Element -> K -> Rectangle -> option Panel -> option Panel
}.

(** The state of [Element::Load] while it runs: the element's base fields,
    the subclass fields, the local [isCentered], and the traces printed. *)
Record Loading (K : Type) : Type := mkLoading {
  base : Element;
  ext : K;
  isCentered : bool;
  traces : list Trace
}.
Arguments mkLoading {K}.
Arguments base {K}.
Arguments ext {K}.
Arguments isCentered {K}.
Arguments traces {K}.

Section Load.
Context {K : Type} `{Kind K} (G : Globals).
Local Open Scope float_scope.

(** The block under [if(hasWidth)]. *)
Definition Load_width (globalAlignment : Point) (centered : bool)
    (newWidth : double) (b : Rectangle) : Rectangle :=
  let center := Center b in
  let dimensions := Dimensions b in
  let center :=
    if negb centered
    then mkPoint (X center + 0.5 * X globalAlignment * (X dimensions - newWidth)) (Y center)
    else center in
  let dimensions := mkPoint newWidth (Y dimensions) in
  mkRectangle center dimensions.

(** The block under [if(hasHeight)]. *)
Definition Load_height (globalAlignment : Point) (centered : bool)
    (newHeight : double) (b : Rectangle) : Rectangle :=
  let center := Center b in
  let dimensions := Dimensions b in
  let center :=
    if negb centered
    then mkPoint (X center) (Y center + 0.5 * Y globalAlignment * (Y dimensions - newHeight))
    else center in
  let dimensions := mkPoint (X dimensions) newHeight in
  mkRectangle center dimensions.

(** The body of the loop of [Element::Load], on one child line. *)
Definition Load_child (globalAlignment : Point) (child : DataNode)
    (st : Loading K) : Loading K :=
  let e := base st in
  let tok0 := Node.Token child 0 in
  let hasDimensions := String.eqb tok0 "dimensions" && (3 <=? Node.Size child)%nat in
  let hasWidth := hasDimensions || (String.eqb tok0 "width" && (2 <=? Node.Size child)%nat) in
  let hasHeight := hasDimensions || (String.eqb tok0 "height" && (2 <=? Node.Size child)%nat) in
  if String.eqb tok0 "align" && (1 <? Node.Size child)%nat then
    let '(a, log) := ParseAlignment child (alignment e) 1 in
    mkLoading (set_alignment a e) (ext st) (isCentered st) (traces st ++ log)
  else if hasWidth || hasHeight then
    let b := bounds e in
    let b := if hasWidth
             then Load_width globalAlignment (isCentered st) (Node.Value child 1) b
             else b in
    let b := if hasHeight
             then Load_height globalAlignment (isCentered st)
                    (Node.Value child (1 + Nat.b2n hasDimensions)) b
             else b in
    mkLoading (set_bounds b e) (ext st) (isCentered st) (traces st)
  else if String.eqb tok0 "center" && (3 <=? Node.Size child)%nat then
    mkLoading
      (set_bounds (mkRectangle (mkPoint (Node.Value child 1) (Node.Value child 2))
                     (Dimensions (bounds e))) e)
      (ext st) true (traces st)
  else if String.eqb tok0 "from" && (6 <=? Node.Size child)%nat
          && String.eqb (Node.Token child 3) "to" then
    mkLoading
      (set_bounds (Rect.WithCorners
                     (mkPoint (Node.Value child 1) (Node.Value child 2))
                     (mkPoint (Node.Value child 4) (Node.Value child 5))) e)
      (ext st) (isCentered st) (traces st)
  else if String.eqb tok0 "from" && (3 <=? Node.Size child)%nat then
    mkLoading
      (set_bounds (mkRectangle
                     (Pt.sub (mkPoint (Node.Value child 1) (Node.Value child 2))
                        (Pt.mul (Pt.scale 0.5 (alignment e)) (Dimensions (bounds e))))
                     (Dimensions (bounds e))) e)
      (ext st) (isCentered st) (traces st)
  else if String.eqb tok0 "pad" && (3 <=? Node.Size child)%nat then
    mkLoading (set_padding (mkPoint (Node.Value child 1) (Node.Value child 2)) e)
      (ext st) (isCentered st) (traces st)
  else
    let '(k, recognized) := ParseLine G child (ext st) in
    if recognized then mkLoading e k (isCentered st) (traces st)
    else mkLoading e k (isCentered st)
           (traces st ++ [mkTrace "Unrecognized interface element attribute:" child]).

(** [for(const DataNode &child : node)] *)
Definition Load_loop (globalAlignment : Point) (lines : list DataNode)
    (st : Loading K) : Loading K :=
  fold_left (fun st child => Load_child globalAlignment child st) lines st.

(** [Element::Load(node, globalAlignment)], run on an element with base
    fields [e] and subclass fields [k]. *)
Definition Load (node : DataNode) (globalAlignment : Point) (e : Element) (k : K)
    : Loading K :=
  Load_loop globalAlignment (children node)
    (mkLoading e k (Pt.is_zero globalAlignment) []).
End Load.

(** ** Element::DrawAt *)

Section DrawAt.
Context {K : Type} `{Kind K} (G : Globals).
Local Open Scope float_scope.

(** The two lines of [DrawAt] that compute [state]. *)
Definition DrawAt_state (anchor : Point) (info : Information) (e : Element) : nat :=
  let box := Rect.offset (bounds e) anchor in
  let state := Nat.b2n (HasCondition info (activeIf e)) in
  (state + Nat.b2n (negb (Nat.eqb state 0) && Rect.Contains box (UI_GetMouse G)))%nat.

(** The rectangle [rect] that [DrawAt] hands to [Draw]. *)
Definition DrawAt_rect (anchor : Point) (info : Information) (e : Element) (k : K)
    (state : nat) : Rectangle :=
  let nativeDimensions := NativeDimensions G e k info state in
  let slack :=
    Pt.sub (Pt.scale 0.5 (Pt.sub (Dimensions (bounds e)) nativeDimensions)) (padding e) in
  mkRectangle (Pt.add (Pt.add (Center (bounds e)) anchor) (Pt.mul (alignment e) slack))
    nativeDimensions.

(** [Element::DrawAt(anchor, info, panel)]: the panel after the call and
    the draw calls issued. *)
Definition DrawAt (anchor : Point) (info : Information) (panel : option Panel)
    (e : Element) (k : K) (fuel : nat) : option (option Panel * list DrawCall) :=
  if negb (HasCondition info (visibleIf e)) then Some (panel, [])
  else
    let box := Rect.offset (bounds e) anchor in
    let state := DrawAt_state anchor info e in
    let panel := match panel with
                 | Some _ => Place e k box panel
                 | None => panel
                 end in
    let rect := DrawAt_rect anchor info e k state in
    match Draw e k rect info state fuel with
    | Some calls => Some (panel, calls)
    | None => None
    end.
End DrawAt.

(** ** The base class, as used for named points *)

(** [Element::ParseLine], [Element::NativeDimensions], [Element::Draw] and
    [Element::Place]: the defaults of the virtual methods. *)
#[global] Instance BaseKind : Kind unit := {
  ParseLine _ _ k := (k, false);
  NativeDimensions _ e _ _ _ := Dimensions (bounds e);
  Draw _ _ _ _ _ _ := Some [];
  Place _ _ _ panel := panel
}.

(** ** ImageElement *)

Module ImageElement.
Local Open Scope float_scope.

(** The fields [ImageElement] adds.  [sprite] is the array
    [const Sprite *sprite[3]], indexed by the state. *)
Record Fields : Type := mk {
  sprite : list (option Sprite);
  name : string;
  isOutline : bool;
  isColored : bool
}.

(** Modelled from the spec: the member initialisers are in Interface.h,
    which is not part of the sources read here.  A new image element
    has no sprite for any state, an empty name, and neither flag set. *)
Definition fields0 : Fields := mk [None; None; None] "" false false.

(** [sprite[state]] *)
Definition sprite_at (k : Fields) (state : nat) : option Sprite :=
  match sprite k !! state with Some p => p | None => None end.

(** [sprite[state] = p] *)
Definition set_sprite (state : nat) (p : option Sprite) (k : Fields) : Fields :=
  mk (<[state := p]> (sprite k)) (name k) (isOutline k) (isColored k).

(** [ImageElement::ParseLine(node)] *)
Definition ParseLine (G : Globals) (node : DataNode) (k : Fields)
    : Fields * bool :=
  if String.eqb (Node.Token node 0) "inactive" && (2 <=? Node.Size node)%nat
     && String.eqb (name k) ""
  then (set_sprite INACTIVE (SpriteSet_Get G (Node.Token node 1)) k, true)
  else if String.eqb (Node.Token node 0) "hover" && (2 <=? Node.Size node)%nat
          && String.eqb (name k) ""
  then (set_sprite HOVER (SpriteSet_Get G (Node.Token node 1)) k, true)
  else if isOutline k && String.eqb (Node.Token node 0) "colored"
  then (mk (sprite k) (name k) (isOutline k) true, true)
  else (k, false).

(** [ImageElement::GetSprite(info, state)] *)
Definition GetSprite (k : Fields) (info : Information) (state : nat)
    : option Sprite :=
  if String.eqb (name k) "" then sprite_at k state else Info_GetSprite info (name k).

(** [ImageElement::NativeDimensions(info, state)] *)
Definition NativeDimensions (G : Globals) (e : Element) (k : Fields)
    (info : Information) (state : nat) : Point :=
  match GetSprite k info state with
  | None => Pt.zero
  | Some s =>
      if not_d (sprite_Width s) || not_d (sprite_Height s) then Pt.zero
      else
        let size := mkPoint (sprite_Width s) (sprite_Height s) in
        if Pt.is_zero (Dimensions (bounds e)) then size
        else
          let xScale := if not_d (Rect.Width (bounds e)) then 1000
                        else Rect.Width (bounds e) / X size in
          let yScale := if not_d (Rect.Height (bounds e)) then 1000
                        else Rect.Height (bounds e) / Y size in
          Pt.scale_r size (std_min xScale yScale)
  end.

(** [ImageElement::Draw(rect, info, state)] *)
Definition Draw (e : Element) (k : Fields) (rect : Rectangle)
    (info : Information) (state : nat) (fuel : nat) : option (list DrawCall) :=
  match GetSprite k info state with
  | None => Some []
  | Some s =>
      if not_d (sprite_Width s) || not_d (sprite_Height s) then Some []
      else if isOutline k then
        let color := if isColored k then Info_GetOutlineColor info else Color_grey 1 1 in
        let unit := Info_GetSpriteUnit info (name k) in
        let frame := Info_GetSpriteFrame info (name k) in
        Some [OutlineShader_Draw s (Center rect) (Dimensions rect) color unit frame]
      else
        Some [SpriteShader_Draw s (Center rect) (Rect.Width rect / sprite_Width s)]
  end.

#[global] Instance kind : Kind Fields := {
  ParseLine := ParseLine;
  NativeDimensions := NativeDimensions;
  Draw := Draw;
  Place _ _ _ panel := panel
}.

(** The block "Fill in any undefined state sprites" of the constructor. *)
Definition fill_sprites (k : Fields) : Fields :=
  if negb (is_null (sprite_at k ACTIVE)) then
    let k := if is_null (sprite_at k INACTIVE)
             then set_sprite INACTIVE (sprite_at k ACTIVE) k else k in
    let k := if is_null (sprite_at k HOVER)
             then set_sprite HOVER (sprite_at k ACTIVE) k else k in
    k
  else k.

(** [ImageElement::ImageElement(node, globalAlignment)]: the element
    constructed and the traces printed. *)
Definition new (G : Globals) (node : DataNode) (globalAlignment : Point)
    : Element * Fields * list Trace :=
  if (Node.Size node <? 2)%nat then (Element_new, fields0, [])
  else
    let k := mk (sprite fields0) (name fields0)
               (String.eqb (Node.Token node 0) "outline") (isColored fields0) in
    let k := if String.eqb (Node.Token node 0) "sprite"
             then set_sprite ACTIVE (SpriteSet_Get G (Node.Token node 1)) k
             else mk (sprite k) (Node.Token node 1) (isOutline k) (isColored k) in
    let st := Load G node globalAlignment Element_new k in
    (base st, fill_sprites (ext st), traces st).
End ImageElement.

(** ** TextElement *)

(** [static_cast<int>(x)] for a double in the range of [int]: the integer
    part, rounded toward zero. *)
Definition double_to_int (x : double) : Z :=
  match Prim2SF x with
  | S754_finite s m e =>
      let n := Z.shiftl (Z.pos m) e in if s then (- n)%Z else n
  | _ => 0%Z
  end.

Module TextElement.

(** The fields [TextElement] adds.  [color] is the array
    [const Color *color[3]], indexed by the state. *)
Record Fields : Type := mk {
  color : list (option Color);
  fontSize : Z;
  buttonKey : ascii;
  isDynamic : bool;
  str : string
}.

(** Modelled from the spec: the member initialisers are in Interface.h,
    which is not part of the sources read here.  A new text element has
    no colour for any state, no button key, and an empty string. *)
Definition fields0 (G : Globals) : Fields :=
  mk [None; None; None] (Default_fontSize G) Ascii.zero false "".

(** [color[state]] *)
Definition color_at (k : Fields) (state : nat) : option Color :=
  match color k !! state with Some p => p | None => None end.

(** [color[state] = p] *)
Definition set_color (state : nat) (p : option Color) (k : Fields) : Fields :=
  mk (<[state := p]> (color k)) (fontSize k) (buttonKey k) (isDynamic k) (str k).

(** [!buttonKey] *)
Definition no_key (c : ascii) : bool := Ascii.eqb c Ascii.zero.

(** [s.front()]; on the empty string, where C++ leaves it undefined, the
    model takes the terminating zero. *)
Definition front (s : string) : ascii :=
  match s with String c _ => c | EmptyString => Ascii.zero end.

(** [TextElement::ParseLine(node)] *)
Definition ParseLine (G : Globals) (node : DataNode) (k : Fields) : Fields * bool :=
  if String.eqb (Node.Token node 0) "size" && (2 <=? Node.Size node)%nat
  then (mk (color k) (double_to_int (Node.Value node 1)) (buttonKey k)
          (isDynamic k) (str k), true)
  else if String.eqb (Node.Token node 0) "color" && (2 <=? Node.Size node)%nat
  then (set_color ACTIVE (Colors_Get G (Node.Token node 1)) k, true)
  else if String.eqb (Node.Token node 0) "inactive" && (2 <=? Node.Size node)%nat
  then (set_color INACTIVE (Colors_Get G (Node.Token node 1)) k, true)
  else if String.eqb (Node.Token node 0) "hover" && (2 <=? Node.Size node)%nat
  then (set_color HOVER (Colors_Get G (Node.Token node 1)) k, true)
  else (k, false).

(** [TextElement::GetString(info)] *)
Definition GetString (k : Fields) (info : Information) : string :=
  if isDynamic k then Info_GetString info (str k) else str k.

(** [TextElement::NativeDimensions(info, state)] *)
Definition NativeDimensions (G : Globals) (e : Element) (k : Fields)
    (info : Information) (state : nat) : Point :=
  let text := GetString k info in
  mkPoint (Font_Width G (fontSize k) text) (Font_Height G (fontSize k)).

(** [TextElement::Draw(rect, info, state)] *)
Definition Draw (e : Element) (k : Fields) (rect : Rectangle)
    (info : Information) (state : nat) (fuel : nat) : option (list DrawCall) :=
  match color_at k state with
  | None => Some []
  | Some c => Some [Font_Draw (fontSize k) (GetString k info) (Rect.TopLeft rect) c]
  end.

(** [TextElement::Place(bounds, panel)] *)
Definition Place (e : Element) (k : Fields) (bounds : Rectangle)
    (panel : option Panel) : option Panel :=
  match panel with
  | Some p => if negb (no_key (buttonKey k)) then Some (AddZone bounds (buttonKey k) p)
              else panel
  | None => panel
  end.

#[global] Instance kind : Kind Fields := {
  ParseLine := ParseLine;
  NativeDimensions := NativeDimensions;
  Draw := Draw;
  Place := Place
}.

(** The block "Fill in any undefined state colors" of the constructor. *)
Definition fill_colors (G : Globals) (k : Fields) : Fields :=
  let k := if is_null (color_at k ACTIVE) && no_key (buttonKey k)
           then set_color ACTIVE
                  (Colors_Get G (if isDynamic k then "bright" else "medium")) k
           else k in
  if is_null (color_at k ACTIVE) then
    let k := set_color ACTIVE (Colors_Get G "active") k in
    let k := if is_null (color_at k INACTIVE)
             then set_color INACTIVE (Colors_Get G "inactive") k else k in
    let k := if is_null (color_at k HOVER)
             then set_color HOVER (Colors_Get G "hover") k else k in
    k
  else
    let k := if is_null (color_at k INACTIVE)
             then set_color INACTIVE (color_at k ACTIVE) k else k in
    let k := if is_null (color_at k HOVER)
             then set_color HOVER (color_at k ACTIVE) k else k in
    k.

(** [TextElement::TextElement(node, globalAlignment)] *)
Definition new (G : Globals) (node : DataNode) (globalAlignment : Point)
    : Element * Fields * list Trace :=
  if (Node.Size node <? 2)%nat then (Element_new, fields0 G, [])
  else
    let k := fields0 G in
    let k := mk (color k) (fontSize k) (buttonKey k)
               (String.eqb (Node.Token node 0) "string") (str k) in
    let k :=
      if String.eqb (Node.Token node 0) "button" then
        let k := mk (color k) (fontSize k) (front (Node.Token node 1))
                   (isDynamic k) (str k) in
        if (3 <=? Node.Size node)%nat
        then mk (color k) (fontSize k) (buttonKey k) (isDynamic k) (Node.Token node 2)
        else k
      else mk (color k) (fontSize k) (buttonKey k) (isDynamic k) (Node.Token node 1) in
    let st := Load G node globalAlignment Element_new k in
    (base st, fill_colors G (ext st), traces st).
End TextElement.

(** ** BarElement *)

Module BarElement.
Local Open Scope float_scope.

(** The fields [BarElement] adds. *)
Record Fields : Type := mk {
  name : string;
  color : option Color;
  width : double;
  isRing : bool
}.

(** Modelled from the spec: the member initialisers are in Interface.h,
    which is not part of the sources read here.  A new bar has an empty
    name, no colour, and is not a ring. *)
Definition fields0 (G : Globals) : Fields := mk "" None (Default_width G) false.

(** [BarElement::ParseLine(node)] *)
Definition ParseLine (G : Globals) (node : DataNode) (k : Fields) : Fields * bool :=
  if String.eqb (Node.Token node 0) "color" && (2 <=? Node.Size node)%nat
  then (mk (name k) (Colors_Get G (Node.Token node 1)) (width k) (isRing k), true)
  else if String.eqb (Node.Token node 0) "size" && (2 <=? Node.Size node)%nat
  then (mk (name k) (color k) (Node.Value node 1) (isRing k), true)
  else (k, false).

(** The loop [while(v < value)] of [BarElement::Draw]: the lines drawn
    from progress [v] on.  [fuel] bounds the number of times the loop
    condition is tested; [None] means it was not enough. *)
Fixpoint Draw_loop (fuel : nat) (start dimensions : Point) (width : double)
    (c : Color) (value filled empty : double) (v : double)
    : option (list DrawCall) :=
  match fuel with
  | O => None
  | S fuel =>
      if v <? value then
        let from := Pt.add start (Pt.scale v dimensions) in
        let v := v + filled in
        let to := Pt.add start (Pt.scale (std_min v value) dimensions) in
        let v := v + empty in
        match Draw_loop fuel start dimensions width c value filled empty v with
        | Some calls => Some (LineShader_Draw from to width c :: calls)
        | None => None
        end
      else Some []
  end.

(** The segment count [Draw] works with:
    [if(segments <= 1.) segments = 0.;] *)
Definition segments_of (info : Information) (k : Fields) : double :=
  let segments := Info_BarSegments info (name k) in
  if segments <=? 1 then 0 else segments.

(** [double empty = segments ? (width / length) : 0.;] *)
Definition empty_of (segments width length : double) : double :=
  if negb (not_d segments) then width / length else 0.

(** [double filled = segments ? (1. - empty * (segments - 1.)) / segments : 1.;] *)
Definition filled_of (segments empty : double) : double :=
  if negb (not_d segments) then (1 - empty * (segments - 1)) / segments else 1.

(** [BarElement::Draw(rect, info, state)] *)
Definition Draw (e : Element) (k : Fields) (rect : Rectangle)
    (info : Information) (state : nat) (fuel : nat) : option (list DrawCall) :=
  let value := Info_BarValue info (name k) in
  let segments := segments_of info k in
  match color k with
  | None => Some []
  | Some c =>
      if not_d (width k) || not_d value then Some []
      else if isRing k then
        if not_d (Rect.Width rect) || not_d (Rect.Height rect) then Some []
        else Some [RingShader_Draw (Center rect) (0.5 * Rect.Width rect) (width k)
                     value c (if 1 <? segments then segments else 0)]
      else
        let start := Rect.BottomRight rect in
        let dimensions := Pt.opp (Dimensions rect) in
        let length := Pt.Length dimensions in
        let empty := empty_of segments (width k) length in
        let filled := filled_of segments empty in
        Draw_loop fuel start dimensions (width k) c value filled empty 0
  end.

#[global] Instance kind : Kind Fields := {
  ParseLine := ParseLine;
  NativeDimensions _ e _ _ _ := Dimensions (bounds e);
  Draw := Draw;
  Place _ _ _ panel := panel
}.

(** [BarElement::BarElement(node, globalAlignment)] *)
Definition new (G : Globals) (node : DataNode) (globalAlignment : Point)
    : Element * Fields * list Trace :=
  if (Node.Size node <? 2)%nat then (Element_new, fields0 G, [])
  else
    let k := mk (Node.Token node 1) (color (fields0 G)) (width (fields0 G))
               (String.eqb (Node.Token node 0) "ring") in
    let st := Load G node globalAlignment Element_new k in
    let k := ext st in
    let k := if is_null (color k)
             then mk (name k) (Colors_Get G "active") (width k) (isRing k) else k in
    (base st, k, traces st).
End BarElement.

(** ** Interface *)

(** An element of the polymorphic list: its base fields and the fields of
    its class. *)
Inductive AnyElement : Type :=
| Image (e : Element) (k : ImageElement.Fields)
| Text (e : Element) (k : TextElement.Fields)
| Bar (e : Element) (k : BarElement.Fields).

(** The base fields of an element of the list. *)
Definition element_base (x : AnyElement) : Element :=
  match x with Image e _ | Text e _ | Bar e _ => e end.

(** The fields of [Interface]: the global alignment, the elements in the
    order they were added, and the named points. *)
Record Interface : Type := mkInterface {
  Interface_alignment : Point;
  elements : list AnyElement;
  points : gmap string Element
}.

(** A default-constructed interface. *)
Definition Interface_new : Interface := mkInterface Pt.zero [] ∅.

Module Iface.
Local Open Scope float_scope.

(** The state of [Interface::Load] while it runs. *)
Record Loading : Type := mkLoading {
  iface : Interface;
  visibleIf_ : string;
  activeIf_ : string;
  traces_ : list Trace
}.

(** [elements.push_back(x); elements.back()->SetConditions(visibleIf, activeIf);] *)
Definition push (st : Loading) (x : AnyElement) (log : list Trace) : Loading :=
  let i := iface st in
  mkLoading
    (mkInterface (Interface_alignment i) (elements i ++ [x]) (points i))
    (visibleIf_ st) (activeIf_ st) (traces_ st ++ log).

(** The body of the loop of [Interface::Load], on one child node. *)
Definition Load_child (G : Globals) (child : DataNode) (st : Loading) : Loading :=
  let i := iface st in
  let tok0 := Node.Token child 0 in
  let cond := SetConditions (visibleIf_ st) (activeIf_ st) in
  if (String.eqb tok0 "point" || String.eqb tok0 "box") && (2 <=? Node.Size child)%nat then
    let name := Node.Token child 1 in
    let p := match points i !! name with Some p => p | None => Element_new end in
    let l := Load G child (Interface_alignment i) p tt in
    mkLoading
      (mkInterface (Interface_alignment i) (elements i) (<[name := base l]> (points i)))
      (visibleIf_ st) (activeIf_ st) (traces_ st ++ traces l)
  else if String.eqb tok0 "visible" || String.eqb tok0 "active" then
    let str := if (3 <=? Node.Size child)%nat && String.eqb (Node.Token child 1) "if"
               then Node.Token child 2 else "" in
    if String.eqb tok0 "visible"
    then mkLoading i str (activeIf_ st) (traces_ st)
    else mkLoading i (visibleIf_ st) str (traces_ st)
  else if String.eqb tok0 "sprite" || String.eqb tok0 "image" || String.eqb tok0 "outline" then
    let '(e, k, log) := ImageElement.new G child (Interface_alignment i) in
    push st (Image (cond e) k) log
  else if String.eqb tok0 "label" || String.eqb tok0 "string" || String.eqb tok0 "button" then
    let '(e, k, log) := TextElement.new G child (Interface_alignment i) in
    push st (Text (cond e) k) log
  else if String.eqb tok0 "bar" || String.eqb tok0 "ring" then
    let '(e, k, log) := BarElement.new G child (Interface_alignment i) in
    push st (Bar (cond e) k) log
  else
    mkLoading i (visibleIf_ st) (activeIf_ st)
      (traces_ st ++ [mkTrace "Unrecognized interface element:" child]).

(** [Interface::Load(node)]: the interface after the call and the traces
    printed. *)
Definition Load (G : Globals) (node : DataNode) (i : Interface)
    : Interface * list Trace :=
  if (Node.Size node <? 2)%nat then (i, [])
  else
    let '(a, log) := ParseAlignment node (Interface_alignment i) 2 in
    let st := fold_left (fun st child => Load_child G child st) (children node)
                (mkLoading (mkInterface a (elements i) (points i)) "" "" log) in
    (iface st, traces_ st).

(** The anchor point of the interface on the screen:
    [.5 * Screen::Dimensions() * alignment]. *)
Definition anchor (G : Globals) (i : Interface) : Point :=
  Pt.mul (Pt.scale 0.5 (Screen_Dimensions G)) (Interface_alignment i).

(** [element->DrawAt(anchor, info, panel)], dispatched on the class. *)
Definition DrawAt_any (G : Globals) (anchor : Point) (info : Information)
    (panel : option Panel) (x : AnyElement) (fuel : nat)
    : option (option Panel * list DrawCall) :=
  match x with
  | Image e k => DrawAt G anchor info panel e k fuel
  | Text e k => DrawAt G anchor info panel e k fuel
  | Bar e k => DrawAt G anchor info panel e k fuel
  end.

(** The loop of [Interface::Draw] over the elements. *)
Fixpoint Draw_loop (G : Globals) (anchor : Point) (info : Information)
    (panel : option Panel) (l : list AnyElement) (fuel : nat)
    : option (option Panel * list DrawCall) :=
  match l with
  | [] => Some (panel, [])
  | x :: rest =>
      match DrawAt_any G anchor info panel x fuel with
      | None => None
      | Some (panel, calls) =>
          match Draw_loop G anchor info panel rest fuel with
          | None => None
          | Some (panel, calls') => Some (panel, calls ++ calls')
          end
      end
  end.

(** [Interface::Draw(info, panel)] *)
Definition Draw (G : Globals) (i : Interface) (info : Information)
    (panel : option Panel) (fuel : nat) : option (option Panel * list DrawCall) :=
  Draw_loop G (anchor G i) info panel (elements i) fuel.

(** [Interface::HasPoint(name)] *)
Definition HasPoint (i : Interface) (name : string) : bool :=
  bool_decide (is_Some (points i !! name)).

(** [Interface::GetPoint(name)] *)
Definition GetPoint (G : Globals) (i : Interface) (name : string) : Point :=
  match points i !! name with
  | None => Pt.zero
  | Some p => Pt.add (Center (bounds p))
                (Pt.mul (Pt.scale 0.5 (Screen_Dimensions G)) (Interface_alignment i))
  end.

(** [Interface::GetSize(name)] *)
Definition GetSize (G : Globals) (i : Interface) (name : string) : Point :=
  match points i !! name with
  | None => Pt.zero
  | Some p => Dimensions (bounds p)
  end.

(** [Interface::GetBox(name)] *)
Definition GetBox (G : Globals) (i : Interface) (name : string) : Rectangle :=
  match points i !! name with
  | None => Rect.zero
  | Some p => Rect.offset (bounds p)
                (Pt.mul (Pt.scale 0.5 (Screen_Dimensions G)) (Interface_alignment i))
  end.
End Iface.

(** ** Vocabulary of the statements *)

(** The axis an alignment keyword sets: [Some false] is the horizontal
    axis, [Some true] the vertical one, [None] an unrecognized token. *)
Definition axis_of (tok : string) : option bool :=
  if String.eqb tok "left" then Some false
  else if String.eqb tok "top" then Some true
  else if String.eqb tok "right" then Some false
  else if String.eqb tok "bottom" then Some true
  else None.

(** The coordinate an alignment keyword stores on its axis. *)
Definition value_of (tok : string) : double :=
  if String.eqb tok "left" || String.eqb tok "top" then (-1)%float else 1%float.

(** The coordinate of a point on an axis. *)
Definition coord (axis : bool) (p : Point) : double :=
  if axis then Y p else X p.

(** A child line of an element that resizes it: [hasWidth || hasHeight]
    in [Element::Load]. *)
Definition is_dimensions (child : DataNode) : bool :=
  String.eqb (Node.Token child 0) "dimensions" && (3 <=? Node.Size child)%nat.
Definition is_width (child : DataNode) : bool :=
  is_dimensions child
  || (String.eqb (Node.Token child 0) "width" && (2 <=? Node.Size child)%nat).
Definition is_height (child : DataNode) : bool :=
  is_dimensions child
  || (String.eqb (Node.Token child 0) "height" && (2 <=? Node.Size child)%nat).

(** A child line [<keyword> <sprite>] with the given keyword, "inactive" or
    "hover": the lines that configure the sprite of a state. *)
Definition sets_sprite (keyword : string) (child : DataNode) : bool :=
  String.eqb (Node.Token child 0) keyword && (2 <=? Node.Size child)%nat.

(** The components of an alignment vector are -1, 0 or +1. *)
Definition is_alignment_vector (p : Point) : Prop :=
  (X p = (-1)%float \/ X p = 0%float \/ X p = 1%float)
  /\ (Y p = (-1)%float \/ Y p = 0%float \/ Y p = 1%float).



(** The invariant of the loop of [Element::Load] on an image, after the
    lines [lines]: what the fields [k] keep of the initial fields [k0]. *)
Definition unset_kept (k0 k : ImageElement.Fields) (lines : list DataNode) : Prop :=
  ImageElement.name k = ImageElement.name k0
  /\ length (ImageElement.sprite k) = length (ImageElement.sprite k0)
  /\ ImageElement.sprite_at k ACTIVE = ImageElement.sprite_at k0 ACTIVE
  /\ (existsb (sets_sprite "inactive") lines = false ->
      ImageElement.sprite_at k INACTIVE = ImageElement.sprite_at k0 INACTIVE)
  /\ (existsb (sets_sprite "hover") lines = false ->
      ImageElement.sprite_at k HOVER = ImageElement.sprite_at k0 HOVER).

(** A child line [center <x> <y>]. *)
Definition is_center (child : DataNode) : bool :=
  String.eqb (Node.Token child 0) "center" && (3 <=? Node.Size child)%nat.

(** A child line [from <x> <y>] that is not [from <x1> <y1> to <x2> <y2>]. *)
Definition is_from_point (child : DataNode) : bool :=
  String.eqb (Node.Token child 0) "from" && (3 <=? Node.Size child)%nat
  && negb ((6 <=? Node.Size child)%nat && String.eqb (Node.Token child 3) "to").

(** The last keyword of an axis among the tokens, if there is one. *)
Fixpoint last_on (axis : bool) (toks : list string) : option string :=
  match toks with
  | [] => None
  | t :: rest =>
      match last_on axis rest with
      | Some kw => Some kw
      | None => if bool_decide (axis_of t = Some axis) then Some t else None
      end
  end.

(** The alignment tokens of a child line of an element: those of an
    [align] line that [Element::Load] hands to [ParseAlignment]. *)
Definition align_tokens (child : DataNode) : list string :=
  if String.eqb (Node.Token child 0) "align" && (1 <? Node.Size child)%nat
  then map text (drop 1 (tokens child)) else [].

(** A child line [from <x1> <y1> to <x2> <y2>]. *)
Definition is_from_to (child : DataNode) : bool :=
  String.eqb (Node.Token child 0) "from" && (6 <=? Node.Size child)%nat
  && String.eqb (Node.Token child 3) "to".

(** A child line [pad <x> <y>]. *)
Definition is_pad (child : DataNode) : bool :=
  String.eqb (Node.Token child 0) "pad" && (3 <=? Node.Size child)%nat.

(** A child line [align <keyword> ...]. *)
Definition is_align (child : DataNode) : bool :=
  String.eqb (Node.Token child 0) "align" && (1 <? Node.Size child)%nat.

(** A child line that [Element::Load] handles itself. *)
Definition is_directive (child : DataNode) : bool :=
  is_align child || is_width child || is_height child || is_center child
  || is_from_to child || is_from_point child || is_pad child.

(** The child lines of an interface, as [Interface::Load] tells them
    apart: a named point, a condition for the elements that follow, and
    the three classes of element. *)
Definition is_point_line (child : DataNode) : bool :=
  (String.eqb (Node.Token child 0) "point" || String.eqb (Node.Token child 0) "box")
  && (2 <=? Node.Size child)%nat.
Definition is_condition_line (child : DataNode) : bool :=
  String.eqb (Node.Token child 0) "visible" || String.eqb (Node.Token child 0) "active".
Definition is_image_line (child : DataNode) : bool :=
  String.eqb (Node.Token child 0) "sprite" || String.eqb (Node.Token child 0) "image"
  || String.eqb (Node.Token child 0) "outline".
Definition is_text_line (child : DataNode) : bool :=
  String.eqb (Node.Token child 0) "label" || String.eqb (Node.Token child 0) "string"
  || String.eqb (Node.Token child 0) "button".
Definition is_bar_line (child : DataNode) : bool :=
  String.eqb (Node.Token child 0) "bar" || String.eqb (Node.Token child 0) "ring".
Definition is_element_line (child : DataNode) : bool :=
  negb (is_point_line child) && negb (is_condition_line child)
  && (is_image_line child || is_text_line child || is_bar_line child).

(** The condition a [visible] or [active] line names: the token after
    [if], and none (the empty name) when the line has no [if]. *)
Definition condition_of (child : DataNode) : string :=
  if (3 <=? Node.Size child)%nat && String.eqb (Node.Token child 1) "if"
  then Node.Token child 2 else "".

(** The condition in force after the lines [lines], for the keyword
    "visible" or "active", when [current] was in force before them. *)
Fixpoint last_condition (keyword : string) (lines : list DataNode) (current : string)
    : string :=
  match lines with
  | [] => current
  | c :: rest =>
      last_condition keyword rest
        (if String.eqb (Node.Token c 0) keyword then condition_of c else current)
  end.

(** The loop of [Interface::Load] over the child nodes. *)
Definition Interface_Load_loop (G : Globals) (lines : list DataNode)
    (st : Iface.Loading) : Iface.Loading :=
  fold_left (fun st child => Iface.Load_child G child st) lines st.

(** The zone an element adds to the panel when it is drawn: one for a
    visible text element with a button key, over its box, and none for
    any other element. *)
Definition button_zone (anchor : Point) (info : Information) (x : AnyElement)
    : list (Rectangle * ascii) :=
  match x with
  | Text e k =>
      if HasCondition info (visibleIf e)
         && negb (TextElement.no_key (TextElement.buttonKey k))
      then [(Rect.offset (bounds e) anchor, TextElement.buttonKey k)]
      else []
  | _ => []
  end.

(** An element whose [Draw] has no loop: every element but a bar that is
    not a ring. *)
Definition draws_at_once (x : AnyElement) : bool :=
  match x with
  | Bar _ k => BarElement.isRing k
  | _ => true
  end.

(** A child line of a text element that sets a colour:
    [color], [inactive] or [hover] with a name. *)
Definition sets_color (child : DataNode) : bool :=
  (String.eqb (Node.Token child 0) "color" || String.eqb (Node.Token child 0) "inactive"
   || String.eqb (Node.Token child 0) "hover")
  && (2 <=? Node.Size child)%nat.

(** Sample data on which the statements are exercised. *)
Module Sample.
Local Open Scope float_scope.

Definition tok (s : string) : Token := mkToken s 0.
Definition num (s : string) (x : double) : Token := mkToken s x.
Definition line (l : list Token) : DataNode := mkNode l [].

Definition white : Color := mkColor 1 1 1 1.
Definition icon : Sprite := mkSprite "icon" 32 16.
Definition blank : Sprite := mkSprite "blank" 0 16.

Definition G : Globals :=
  mkGlobals (fun s => if String.eqb s "blank" then Some blank else Some icon)
    (fun _ => Some white)
    (fun _ _ => 8)
    (fun _ => 16) (mkPoint 100 100) (mkPoint 3 4) 14%Z 2.

Definition info : Information :=
  mkInformation (fun s => String.eqb s "on") (fun _ => 0.5) (fun _ => 2)
    (fun s => s) (fun _ => Some icon) (fun _ => mkPoint 0 (-1)) (fun _ => 0%Z) white.
End Sample.

(** * Properties *)

(** ** Alignment keywords *)

Lemma ParseAlignment_token_axis node tok a log :
  fst (ParseAlignment_token node tok (a, log)) =
    match axis_of tok with
    | Some false => mkPoint (value_of tok) (Y a)
    | Some true => mkPoint (X a) (value_of tok)
    | None => a
    end.
Proof.
  unfold ParseAlignment_token, axis_of, value_of.
  destruct (String.eqb tok "left"); [reflexivity|].
  destruct (String.eqb tok "top"); [reflexivity|].
  destruct (String.eqb tok "right"); [reflexivity|].
  destruct (String.eqb tok "bottom"); reflexivity.
Qed.


Lemma ParseAlignment_loop_app node toks toks' st :
  ParseAlignment_loop node (toks ++ toks') st =
  ParseAlignment_loop node toks' (ParseAlignment_loop node toks st).
Proof.
  revert st. induction toks as [|t toks IH]; intros st; simpl; [reflexivity|].
  apply IH.
Qed.






(** ** Geometry resolution *)

Section LoadFacts.
Context {K : Type} `{Kind K} (G : Globals) (globalAlignment : Point).
Local Open Scope float_scope.

Lemma Load_loop_app (l1 l2 : list DataNode) (st : Loading K) :
  Load_loop G globalAlignment (l1 ++ l2) st =
  Load_loop G globalAlignment l2 (Load_loop G globalAlignment l1 st).
Proof. unfold Load_loop. apply fold_left_app. Qed.

Lemma Load_loop_cons (c : DataNode) (l : list DataNode) (st : Loading K) :
  Load_loop G globalAlignment (c :: l) st =
  Load_loop G globalAlignment l (Load_child G globalAlignment c st).
Proof. reflexivity. Qed.

(** A resizing line takes the second branch of the loop body. *)
Lemma Load_child_resize (child : DataNode) (st : Loading K) :
  is_width child || is_height child = true ->
  Load_child G globalAlignment child st =
  mkLoading
    (set_bounds
       (let b := bounds (base st) in
        let b := if is_width child
                 then Load_width globalAlignment (isCentered st) (Node.Value child 1) b
                 else b in
        if is_height child
        then Load_height globalAlignment (isCentered st)
               (Node.Value child (1 + Nat.b2n (is_dimensions child))) b
        else b)
       (base st))
    (ext st) (isCentered st) (traces st).
Proof.
  intros Hres. unfold Load_child.
  fold (is_dimensions child). fold (is_width child). fold (is_height child).
  assert (String.eqb (Node.Token child 0) "align" = false) as ->.
  { unfold is_width, is_height, is_dimensions in Hres.
    destruct (String.eqb_spec (Node.Token child 0) "align") as [E|]; [|reflexivity].
    rewrite E in Hres. discriminate Hres. }
  cbn [andb]. rewrite Hres. reflexivity.
Qed.

(** [isCentered] changes only on a [center] line, which sets it. *)
Lemma Load_child_isCentered (child : DataNode) (st : Loading K) :
  isCentered (Load_child G globalAlignment child st) = isCentered st || is_center child.
Proof.
  unfold Load_child, is_center.
  destruct (String.eqb_spec (Node.Token child 0) "center") as [E|_].
  - rewrite E. cbn [String.eqb Ascii.eqb Bool.eqb andb orb].
    destruct (3 <=? Node.Size child)%nat; cbn [andb].
    + cbn [isCentered]. rewrite orb_true_r. reflexivity.
    + destruct (ParseLine G child (ext st)) as [k []]; cbn [isCentered];
        rewrite orb_false_r; reflexivity.
  - cbn [andb]. rewrite orb_false_r.
    repeat match goal with
           | |- context [if ?c then _ else _] => destruct c
           | |- context [let '(_, _) := ?p in _] => destruct p
           end; reflexivity.
Qed.

Lemma Load_loop_isCentered (lines : list DataNode) (st : Loading K) :
  isCentered (Load_loop G globalAlignment lines st) =
  isCentered st || existsb is_center lines.
Proof.
  revert st. induction lines as [|c lines IH]; intros st.
  - cbn. rewrite orb_false_r. reflexivity.
  - rewrite Load_loop_cons, IH, Load_child_isCentered. cbn [existsb].
    rewrite orb_assoc. reflexivity.
Qed.

(** A [from <x> <y>] line without [to] takes the fifth branch. *)
Lemma Load_child_from_point (child : DataNode) (st : Loading K) :
  is_from_point child = true ->
  Load_child G globalAlignment child st =
  mkLoading
    (set_bounds
       (mkRectangle
          (Pt.sub (mkPoint (Node.Value child 1) (Node.Value child 2))
             (Pt.mul (Pt.scale 0.5 (alignment (base st))) (Dimensions (bounds (base st)))))
          (Dimensions (bounds (base st))))
       (base st))
    (ext st) (isCentered st) (traces st).
Proof.
  intros Hfrom. unfold is_from_point in Hfrom.
  apply andb_prop in Hfrom as [Hfrom Hto]. apply andb_prop in Hfrom as [Htok Hsize].
  apply String.eqb_eq in Htok. unfold Load_child. rewrite Htok.
  cbn [String.eqb Ascii.eqb Bool.eqb andb orb].
  rewrite Hsize. apply negb_true_iff in Hto. rewrite Hto. reflexivity.
Qed.
End LoadFacts.

Lemma is_zero_alignment_vector (p : Point) :
  is_alignment_vector p -> (Pt.is_zero p = true <-> p = Pt.zero).
Proof.
  destruct p as [x y]. unfold is_alignment_vector. cbn [X Y].
  intros [[-> | [-> | ->]] [-> | [-> | ->]]];
    split; intros E; try reflexivity; try discriminate E;
    apply (f_equal Pt.is_zero) in E; vm_compute in E; discriminate E.
Qed.

(** Two doubles that a comparison tells apart are different. *)
Lemma double_neq (x y : double) : PrimFloat.eqb x y = false -> PrimFloat.eqb y y = true -> x <> y.
Proof. intros Hxy Hyy E. subst x. congruence. Qed.

Section Resolution.
Context {K : Type} `{Kind K} (G : Globals).
Local Open Scope float_scope.

(** C1.  While an element is loaded, [isCentered] is true exactly when
    the global alignment is zero or a [center] line came earlier.  On a
    [width], [height] or [dimensions] line, each resized axis gets the
    new dimension, and its center moves by
    [0.5 * globalAlignment * (old - new)] when [isCentered] is false and
    stays when it is true; an axis that is not resized, and every other
    field, is left as it was. *)
Theorem Load_resize_shift (node : DataNode) (globalAlignment : Point)
    (e : Element) (k : K) (pre post : list DataNode) (child : DataNode) :
  children node = pre ++ child :: post ->
  is_width child || is_height child = true ->
  let st := Load_loop G globalAlignment pre
              (mkLoading e k (Pt.is_zero globalAlignment) []) in
  let st' := Load_child G globalAlignment child st in
  let center := Center (bounds (base st)) in
  let dimensions := Dimensions (bounds (base st)) in
  let newWidth := Node.Value child 1 in
  let newHeight := Node.Value child (if is_dimensions child then 2 else 1) in
  (is_alignment_vector globalAlignment ->
   (Pt.is_zero globalAlignment = true <-> globalAlignment = Pt.zero))
  /\ isCentered st = Pt.is_zero globalAlignment || existsb is_center pre
  /\ Load G node globalAlignment e k = Load_loop G globalAlignment post st'
  /\ X (Center (bounds (base st'))) =
       (if is_width child && negb (isCentered st)
        then X center + 0.5 * X globalAlignment * (X dimensions - newWidth)
        else X center)
  /\ Y (Center (bounds (base st'))) =
       (if is_height child && negb (isCentered st)
        then Y center + 0.5 * Y globalAlignment * (Y dimensions - newHeight)
        else Y center)
  /\ X (Dimensions (bounds (base st'))) =
       (if is_width child then newWidth else X dimensions)
  /\ Y (Dimensions (bounds (base st'))) =
       (if is_height child then newHeight else Y dimensions)
  /\ st' = mkLoading (set_bounds (bounds (base st')) (base st))
             (ext st) (isCentered st) (traces st).
Proof.
  intros Hchildren Hres st st' center dimensions newWidth newHeight.
  split; [apply is_zero_alignment_vector|].
  split; [apply (Load_loop_isCentered G globalAlignment pre)|].
  split.
  { unfold Load. rewrite Hchildren, Load_loop_app, Load_loop_cons. reflexivity. }
  assert (st' = mkLoading
    (set_bounds
       (let b := bounds (base st) in
        let b := if is_width child
                 then Load_width globalAlignment (isCentered st) (Node.Value child 1) b
                 else b in
        if is_height child
        then Load_height globalAlignment (isCentered st)
               (Node.Value child (1 + Nat.b2n (is_dimensions child))) b
        else b)
       (base st))
    (ext st) (isCentered st) (traces st)) as Est
    by (apply Load_child_resize; exact Hres).
  rewrite Est. cbn [base bounds set_bounds].
  subst center dimensions newWidth newHeight.
  unfold Load_width, Load_height.
  destruct (is_width child), (is_height child), (isCentered st),
    (is_dimensions child); cbn; repeat split; reflexivity.
Qed.

(** C4, as amended.  A [from <x> <y>] line without [to] keeps the
    dimensions and puts the center of the rectangle at the given point
    minus [0.5 * alignment * dimensions], for the alignment the element
    has at that line; every other field is left as it was. *)
Theorem Load_from_point_center (node : DataNode) (globalAlignment : Point)
    (e : Element) (k : K) (pre post : list DataNode) (child : DataNode) :
  children node = pre ++ child :: post ->
  is_from_point child = true ->
  let st := Load_loop G globalAlignment pre
              (mkLoading e k (Pt.is_zero globalAlignment) []) in
  let st' := Load_child G globalAlignment child st in
  let point := mkPoint (Node.Value child 1) (Node.Value child 2) in
  Load G node globalAlignment e k = Load_loop G globalAlignment post st'
  /\ Dimensions (bounds (base st')) = Dimensions (bounds (base st))
  /\ Center (bounds (base st')) =
       Pt.sub point
         (Pt.mul (Pt.scale 0.5 (alignment (base st))) (Dimensions (bounds (base st))))
  /\ st' = mkLoading (set_bounds (bounds (base st')) (base st))
             (ext st) (isCentered st) (traces st).
Proof.
  intros Hchildren Hfrom st st' point.
  split.
  { unfold Load. rewrite Hchildren, Load_loop_app, Load_loop_cons. reflexivity. }
  subst st'. rewrite (Load_child_from_point G globalAlignment child st Hfrom).
  cbn [base bounds set_bounds Center Dimensions]. repeat split; reflexivity.
Qed.
End Resolution.

Lemma Load_resize_shift_witness :
  let node := mkNode [Sample.tok "box"; Sample.tok "p"]
                [Sample.line [Sample.tok "dimensions"; Sample.num "10" 10; Sample.num "20" 20];
                 Sample.line [Sample.tok "width"; Sample.num "4" 4]] in
  bounds (base (Load Sample.G node (mkPoint (-1) 1)%float Element_new tt)) =
  mkRectangle (mkPoint 2 (-10))%float (mkPoint 4 20)%float.
Proof.
  intros node.
  pose proof (Load_resize_shift Sample.G node (mkPoint (-1) 1)%float Element_new tt
                [Sample.line [Sample.tok "dimensions"; Sample.num "10" 10%float;
                              Sample.num "20" 20%float]]
                [] (Sample.line [Sample.tok "width"; Sample.num "4" 4%float])
                eq_refl eq_refl) as (_ & _ & Hload & _).
  rewrite Hload. vm_compute. reflexivity.
Defined.

(** C4, as the specification words it, fails: with the default (centered)
    alignment, [from 100 200] on a 10 by 20 rectangle puts the top-left
    corner at (95, 190), not at the given point. *)
Lemma from_point_top_left_counterexample :
  let node := mkNode [Sample.tok "box"; Sample.tok "p"]
                [Sample.line [Sample.tok "dimensions"; Sample.num "10" 10; Sample.num "20" 20];
                 Sample.line [Sample.tok "from"; Sample.num "100" 100; Sample.num "200" 200]] in
  let st := Load Sample.G node Pt.zero Element_new tt in
  Dimensions (bounds (base st)) = mkPoint 10 20
  /\ alignment (base st) = Pt.zero
  /\ Rect.TopLeft (bounds (base st)) = mkPoint 95 190
  /\ Rect.TopLeft (bounds (base st)) <>
       Pt.sub (mkPoint 100 200)
         (Pt.mul (Pt.scale 0.5 (alignment (base st))) (Dimensions (bounds (base st)))).
Proof.
  intros node st. repeat split; try (vm_compute; reflexivity).
  intros E. apply (f_equal X) in E. vm_compute in E.
  revert E. apply double_neq; vm_compute; reflexivity.
Qed.

Lemma Load_from_point_center_witness :
  let node := mkNode [Sample.tok "box"; Sample.tok "p"]
                [Sample.line [Sample.tok "dimensions"; Sample.num "10" 10; Sample.num "20" 20];
                 Sample.line [Sample.tok "align"; Sample.tok "left"; Sample.tok "top"];
                 Sample.line [Sample.tok "from"; Sample.num "100" 100; Sample.num "200" 200]] in
  bounds (base (Load Sample.G node Pt.zero Element_new tt)) =
  mkRectangle (mkPoint 105 210)%float (mkPoint 10 20)%float.
Proof.
  intros node.
  pose proof (Load_from_point_center Sample.G node Pt.zero Element_new tt
                [Sample.line [Sample.tok "dimensions"; Sample.num "10" 10%float;
                              Sample.num "20" 20%float];
                 Sample.line [Sample.tok "align"; Sample.tok "left"; Sample.tok "top"]]
                [] (Sample.line [Sample.tok "from"; Sample.num "100" 100%float;
                                 Sample.num "200" 200%float])
                eq_refl eq_refl) as (Hload & _).
  rewrite Hload. vm_compute. reflexivity.
Defined.

(** ** Drawing an element *)

Lemma HasCondition_false (info : Information) (name : string) :
  HasCondition info name = false <-> name <> "" /\ conditions info name = false.
Proof.
  unfold HasCondition. destruct (String.eqb_spec name "") as [E|E].
  - split; [discriminate | intros [Hne _]; contradiction].
  - split; [intros Hc; split; assumption | intros [_ Hc]; exact Hc].
Qed.

Section Drawing.
Context {K : Type} `{Kind K} (G : Globals).
Local Open Scope float_scope.

(** A visible element: what [DrawAt] does after its first test. *)
Lemma DrawAt_visible (anchor : Point) (info : Information) (panel : option Panel)
    (e : Element) (k : K) (fuel : nat) :
  HasCondition info (visibleIf e) = true ->
  DrawAt G anchor info panel e k fuel =
  let state := DrawAt_state G anchor info e in
  match Draw e k (DrawAt_rect G anchor info e k state) info state fuel with
  | Some calls =>
      Some (match panel with
            | Some _ => Place e k (Rect.offset (bounds e) anchor) panel
            | None => None
            end, calls)
  | None => None
  end.
Proof.
  intros Hvis. unfold DrawAt. rewrite Hvis. cbn [negb].
  destruct panel; reflexivity.
Qed.

Lemma DrawAt_state_cases (anchor : Point) (info : Information) (e : Element) :
  DrawAt_state G anchor info e =
  if negb (HasCondition info (activeIf e)) then INACTIVE
  else if Rect.Contains (Rect.offset (bounds e) anchor) (UI_GetMouse G) then HOVER
       else ACTIVE.
Proof.
  unfold DrawAt_state.
  destruct (HasCondition info (activeIf e)); [|reflexivity].
  destruct (Rect.Contains _ _); reflexivity.
Qed.

(** C2.  For a visible element, the state [DrawAt] passes on is 0 when
    the activation condition is set and false in the provider, and
    otherwise 1, or 2 exactly when the pointer is inside the box
    [bounds + anchor]; so it is never 2 when the condition is false. *)
Theorem DrawAt_activation_state (anchor : Point) (info : Information)
    (panel : option Panel) (e : Element) (k : K) (fuel : nat) :
  HasCondition info (visibleIf e) = true ->
  let box := Rect.offset (bounds e) anchor in
  let active := HasCondition info (activeIf e) in
  let inside := Rect.Contains box (UI_GetMouse G) in
  let state := if negb active then INACTIVE else if inside then HOVER else ACTIVE in
  (active = false <-> activeIf e <> "" /\ conditions info (activeIf e) = false)
  /\ (state = HOVER <-> active = true /\ inside = true)
  /\ (active = false -> state <> HOVER)
  /\ DrawAt G anchor info panel e k fuel =
     match Draw e k (DrawAt_rect G anchor info e k state) info state fuel with
     | Some calls =>
         Some (match panel with Some _ => Place e k box panel | None => None end, calls)
     | None => None
     end.
Proof.
  intros Hvis box active inside state.
  split; [apply HasCondition_false|].
  split; [|split].
  - subst state. destruct active, inside; cbn; split; try discriminate;
      try (intros [? ?]; discriminate); intros _; split; reflexivity.
  - intros Hact. subst state. rewrite Hact. discriminate.
  - rewrite (DrawAt_visible anchor info panel e k fuel Hvis). cbn zeta.
    rewrite DrawAt_state_cases. reflexivity.
Qed.

(** C3.  For a visible element, the rectangle handed to the draw routine
    has the native dimensions of the element's class for the current
    state as its size, and its center is
    [bounds.center + anchor + alignment * slack], where
    [slack = 0.5 * (bounds.dimensions - nativeDimensions) - padding]. *)
Theorem DrawAt_rectangle (anchor : Point) (info : Information)
    (panel : option Panel) (e : Element) (k : K) (fuel : nat) :
  HasCondition info (visibleIf e) = true ->
  let state := DrawAt_state G anchor info e in
  let nativeDimensions := NativeDimensions G e k info state in
  let slack :=
    Pt.sub (Pt.scale 0.5 (Pt.sub (Dimensions (bounds e)) nativeDimensions)) (padding e) in
  let rect :=
    mkRectangle (Pt.add (Pt.add (Center (bounds e)) anchor) (Pt.mul (alignment e) slack))
      nativeDimensions in
  DrawAt G anchor info panel e k fuel =
  match Draw e k rect info state fuel with
  | Some calls =>
      Some (match panel with
            | Some _ => Place e k (Rect.offset (bounds e) anchor) panel
            | None => None
            end, calls)
  | None => None
  end.
Proof.
  intros Hvis state nativeDimensions slack rect.
  rewrite (DrawAt_visible anchor info panel e k fuel Hvis). reflexivity.
Qed.

(** The first half of C9, for any class of element. *)
Lemma DrawAt_invisible (anchor : Point) (info : Information) (panel : option Panel)
    (e : Element) (k : K) (fuel : nat) :
  HasCondition info (visibleIf e) = false ->
  DrawAt G anchor info panel e k fuel = Some (panel, []).
Proof. intros Hvis. unfold DrawAt. rewrite Hvis. reflexivity. Qed.
End Drawing.

Lemma DrawAt_activation_state_witness :
  let e := SetConditions "" "on" (set_bounds (mkRectangle (mkPoint 0 0) (mkPoint 10 10)) Element_new) in
  DrawAt Sample.G Pt.zero Sample.info None e tt 1 = Some (None, []).
Proof.
  intros e.
  pose proof (DrawAt_activation_state Sample.G Pt.zero Sample.info None e tt 1 eq_refl)
    as (_ & _ & _ & Hdraw).
  rewrite Hdraw. reflexivity.
Defined.

Lemma DrawAt_rectangle_witness :
  let e := set_padding (mkPoint 1 2)
             (set_alignment (mkPoint (-1) 1)
                (set_bounds (mkRectangle (mkPoint 0 0) (mkPoint 64 0)) Element_new)) in
  let k := ImageElement.set_sprite ACTIVE (Some Sample.icon) ImageElement.fields0 in
  DrawAt Sample.G (mkPoint 50 50) Sample.info None e k 1 =
  Some (None, [SpriteShader_Draw Sample.icon (mkPoint 51 32) 2]).
Proof.
  intros e k.
  rewrite (DrawAt_rectangle Sample.G (mkPoint 50 50) Sample.info None e k 1 eq_refl).
  vm_compute. reflexivity.
Defined.

(** C9.  Drawing an element whose visibility condition is set and false
    does nothing: the panel is returned as it was and no draw call is
    issued.  For a visible element and a panel, [Place] is called on the
    box [bounds + anchor] whatever the activation state is; it adds a zone
    only for a text element with a nonzero button key, and leaves the panel
    alone for every other element.  Without a panel nothing is placed.
    [DrawAt] is a const member: it returns a panel and draw calls and no
    element, so it has no way to change a field of one. *)
Theorem DrawAt_visibility_and_zone (G : Globals) (anchor : Point)
    (info : Information) (e : Element) (fuel : nat) :
  let box := Rect.offset (bounds e) anchor in
  (forall (K : Type) (kind : Kind K) (k : K) (panel : option Panel),
      HasCondition info (visibleIf e) = false ->
      DrawAt G anchor info panel e k fuel = Some (panel, []))
  /\ (forall (K : Type) (kind : Kind K) (k : K) (panel : option Panel),
      HasCondition info (visibleIf e) = true ->
      let state := DrawAt_state G anchor info e in
      DrawAt G anchor info panel e k fuel =
      match Draw e k (DrawAt_rect G anchor info e k state) info state fuel with
      | Some calls =>
          Some (match panel with Some _ => Place e k box panel | None => None end, calls)
      | None => None
      end)
  /\ (forall (k : TextElement.Fields) (p : Panel),
      HasCondition info (visibleIf e) = true ->
      fst <$> DrawAt G anchor info (Some p) e k fuel =
      Some (Some (if TextElement.no_key (TextElement.buttonKey k) then p
                  else p ++ [(box, TextElement.buttonKey k)])))
  /\ (forall (k : ImageElement.Fields) (p : Panel), Place e k box (Some p) = Some p)
  /\ (forall (k : BarElement.Fields) (p : Panel), Place e k box (Some p) = Some p)
  /\ (forall (k : unit) (p : Panel), Place e k box (Some p) = Some p).
Proof.
  intros box. split; [|split; [|split; [|repeat split]]].
  - intros K kind k panel Hvis. apply DrawAt_invisible. exact Hvis.
  - intros K kind k panel Hvis. apply DrawAt_visible. exact Hvis.
  - intros k p Hvis. rewrite (DrawAt_visible G anchor info (Some p) e k fuel Hvis).
    cbn zeta. cbn [Draw Place TextElement.kind].
    unfold TextElement.Draw, TextElement.Place, AddZone.
    destruct (TextElement.color_at k _), (TextElement.no_key _); reflexivity.
Qed.

Lemma DrawAt_visibility_and_zone_witness :
  let e := SetConditions "off" ""
             (set_bounds (mkRectangle (mkPoint 0 0) (mkPoint 10 10)) Element_new) in
  let k := TextElement.mk [Some Sample.white; None; None] 14 "B"%char false "Buy" in
  DrawAt Sample.G Pt.zero Sample.info (Some []) e k 1 = Some (Some [], [])
  /\ fst <$> DrawAt Sample.G Pt.zero Sample.info (Some []) (SetConditions "on" "off" e) k 1 =
     Some (Some [(mkRectangle (mkPoint 0 0) (mkPoint 10 10), "B"%char)]).
Proof.
  intros e k. split.
  - apply (DrawAt_visibility_and_zone Sample.G Pt.zero Sample.info e 1).
    reflexivity.
  - pose proof (DrawAt_visibility_and_zone Sample.G Pt.zero Sample.info
                  (SetConditions "on" "off" e) 1) as (_ & _ & Htext & _).
    refine (eq_trans (Htext k [] eq_refl) _). vm_compute. reflexivity.
Defined.

(** C8.  The draw routine of a class issues no draw call, and returns,
    when a resource it needs is missing: for a text element, the colour of
    the current state is unset; for a bar or ring, the colour is unset, or
    the stroke width or the provider's value is zero; for an image, there
    is no sprite, or its width or height is zero. *)
Theorem Draw_missing_resource (e : Element) (rect : Rectangle)
    (info : Information) (state fuel : nat) :
  (forall k : TextElement.Fields,
      TextElement.color_at k state = None ->
      Draw e k rect info state fuel = Some [])
  /\ (forall k : BarElement.Fields,
      BarElement.color k = None
      \/ not_d (BarElement.width k) = true
      \/ not_d (Info_BarValue info (BarElement.name k)) = true ->
      Draw e k rect info state fuel = Some [])
  /\ (forall k : ImageElement.Fields,
      ImageElement.GetSprite k info state = None
      \/ (exists s, ImageElement.GetSprite k info state = Some s
                    /\ (not_d (sprite_Width s) = true \/ not_d (sprite_Height s) = true)) ->
      Draw e k rect info state fuel = Some [])
  /\ not_d 0%float = true.
Proof.
  split; [|split; [|split]].
  - intros k Hcol. cbn [Draw TextElement.kind]. unfold TextElement.Draw.
    rewrite Hcol. reflexivity.
  - intros k Hmiss. cbn [Draw BarElement.kind]. unfold BarElement.Draw.
    destruct (BarElement.color k) as [c|]; [|reflexivity].
    destruct Hmiss as [Hc | [Hw | Hv]]; [discriminate Hc | |].
    + rewrite Hw. reflexivity.
    + rewrite Hv, orb_true_r. reflexivity.
  - intros k Hmiss. cbn [Draw ImageElement.kind]. unfold ImageElement.Draw.
    destruct Hmiss as [Hnone | (s & Hs & Hzero)].
    + rewrite Hnone. reflexivity.
    + rewrite Hs. destruct Hzero as [Hw | Hh].
      * rewrite Hw. reflexivity.
      * rewrite Hh, orb_true_r. reflexivity.
  - reflexivity.
Qed.

Lemma Draw_missing_resource_witness :
  Draw Element_new (TextElement.fields0 Sample.G) Rect.zero Sample.info HOVER 0 = Some []
  /\ Draw Element_new (BarElement.mk "fuel" (Some Sample.white) 0 false) Rect.zero
       Sample.info ACTIVE 0 = Some []
  /\ Draw Element_new
       (ImageElement.set_sprite ACTIVE (Some Sample.blank) ImageElement.fields0)
       Rect.zero Sample.info ACTIVE 0 = Some [].
Proof.
  pose proof (Draw_missing_resource Element_new Rect.zero Sample.info) as Hdraw.
  split; [|split].
  - apply (Hdraw HOVER 0%nat). reflexivity.
  - apply (Hdraw ACTIVE 0%nat). right. left. reflexivity.
  - apply (Hdraw ACTIVE 0%nat). right. exists Sample.blank. split; [reflexivity|].
    left. reflexivity.
Defined.

(** ** Named points *)

(** C5, as amended.  A name with no point gives the zero point (and the
    zero rectangle).  For a name with a point, the center and the box are
    the stored ones moved by the anchor offset
    [0.5 * screen dimensions * global alignment]; the size is the stored
    size as it is, with no offset added. *)
Theorem named_point_queries (G : Globals) (i : Interface) (name : string) :
  let offset := Pt.mul (Pt.scale 0.5 (Screen_Dimensions G)) (Interface_alignment i) in
  (points i !! name = None ->
   Iface.HasPoint i name = false
   /\ Iface.GetPoint G i name = Pt.zero
   /\ Iface.GetSize G i name = Pt.zero
   /\ Iface.GetBox G i name = Rect.zero)
  /\ (forall p : Element,
      points i !! name = Some p ->
      Iface.HasPoint i name = true
      /\ Iface.GetPoint G i name = Pt.add (Center (bounds p)) offset
      /\ Iface.GetBox G i name =
           mkRectangle (Pt.add (Center (bounds p)) offset) (Dimensions (bounds p))
      /\ Iface.GetSize G i name = Dimensions (bounds p)).
Proof.
  intros offset. unfold Iface.HasPoint, Iface.GetPoint, Iface.GetSize, Iface.GetBox.
  split.
  - intros Hnone. rewrite Hnone. repeat split; reflexivity.
  - intros p Hsome. rewrite Hsome. repeat split; reflexivity.
Qed.

Lemma named_point_queries_witness :
  let p := set_bounds (mkRectangle (mkPoint 1 2) (mkPoint 10 20)) Element_new in
  let i := mkInterface (mkPoint 1 1) [] {[ "p" := p ]} in
  Iface.GetPoint Sample.G i "q" = Pt.zero
  /\ Iface.GetPoint Sample.G i "p" = mkPoint 51 52
  /\ Iface.GetSize Sample.G i "p" = mkPoint 10 20.
Proof.
  intros p i.
  pose proof (named_point_queries Sample.G i "q") as (Habsent & _).
  pose proof (named_point_queries Sample.G i "p") as (_ & Hpresent).
  split; [apply Habsent; reflexivity|].
  destruct (Hpresent p eq_refl) as (_ & Hcenter & _ & Hsize).
  split; [rewrite Hcenter | rewrite Hsize]; vm_compute; reflexivity.
Defined.

(** C5, as the specification words it, fails: the size query does not add
    the anchor offset.  With the screen 100 by 100 and the interface
    aligned right and bottom, the offset is (50, 50), and the size of a 10
    by 20 point is reported as (10, 20), not (60, 70). *)
Lemma GetSize_offset_counterexample :
  let p := set_bounds (mkRectangle (mkPoint 1 2) (mkPoint 10 20)) Element_new in
  let i := mkInterface (mkPoint 1 1) [] {[ "p" := p ]} in
  let offset := Pt.mul (Pt.scale 0.5 (Screen_Dimensions Sample.G)) (Interface_alignment i) in
  points i !! "p" = Some p
  /\ offset = mkPoint 50 50
  /\ Iface.GetSize Sample.G i "p" = mkPoint 10 20
  /\ Iface.GetSize Sample.G i "p" <> Pt.add (Dimensions (bounds p)) offset.
Proof.
  intros p i offset. repeat split; try (vm_compute; reflexivity).
  intros E. apply (f_equal X) in E. vm_compute in E.
  revert E. apply double_neq; vm_compute; reflexivity.
Qed.

(** ** Image elements *)

Module ImageFacts.
Lemma sprite_at_set_same (k : ImageElement.Fields) (s : nat) (p : option Sprite) :
  s < length (ImageElement.sprite k) -> ImageElement.sprite_at (ImageElement.set_sprite s p k) s = p.
Proof.
  intros Hlen. unfold ImageElement.sprite_at, ImageElement.set_sprite. cbn [ImageElement.sprite].
  rewrite list_lookup_insert_eq by exact Hlen. reflexivity.
Qed.

Lemma sprite_at_set_other (k : ImageElement.Fields) (s s' : nat) (p : option Sprite) :
  s <> s' -> ImageElement.sprite_at (ImageElement.set_sprite s p k) s' = ImageElement.sprite_at k s'.
Proof.
  intros Hne. unfold ImageElement.sprite_at, ImageElement.set_sprite. cbn [ImageElement.sprite].
  rewrite list_lookup_insert_ne by exact Hne. reflexivity.
Qed.

Lemma length_set_sprite (k : ImageElement.Fields) (s : nat) (p : option Sprite) :
  length (ImageElement.sprite (ImageElement.set_sprite s p k)) = length (ImageElement.sprite k).
Proof. unfold ImageElement.set_sprite. cbn [ImageElement.sprite]. apply length_insert. Qed.

Ltac set_other :=
  repeat match goal with
         | |- context [ImageElement.sprite_at (ImageElement.set_sprite ?s ?p ?k) ?s'] =>
             rewrite (sprite_at_set_other k s s' p)
               by (unfold INACTIVE, ACTIVE, HOVER; lia)
         end.

(** What [ParseLine] can change: the sprite of the state its keyword
    names, for an element without a name, and the colored flag. *)
Lemma ParseLine_frame (G : Globals) (line : DataNode) (k : ImageElement.Fields) :
  let k' := fst (ImageElement.ParseLine G line k) in
  ImageElement.name k' = ImageElement.name k
  /\ length (ImageElement.sprite k') = length (ImageElement.sprite k)
  /\ ImageElement.sprite_at k' ACTIVE = ImageElement.sprite_at k ACTIVE
  /\ (sets_sprite "inactive" line = false -> ImageElement.sprite_at k' INACTIVE = ImageElement.sprite_at k INACTIVE)
  /\ (sets_sprite "hover" line = false -> ImageElement.sprite_at k' HOVER = ImageElement.sprite_at k HOVER).
Proof.
  unfold ImageElement.ParseLine, sets_sprite.
  destruct (String.eqb_spec (Node.Token line 0) "inactive") as [Ei|Ei].
  - rewrite Ei. cbn [String.eqb Ascii.eqb Bool.eqb andb].
    destruct (2 <=? Node.Size line)%nat; cbn [andb].
    + destruct (String.eqb (ImageElement.name k) ""); cbn [fst].
      * rewrite length_set_sprite. set_other.
        repeat split; try reflexivity; intros Hf; discriminate Hf.
      * destruct (ImageElement.isOutline k); cbn; repeat split; intros; reflexivity.
    + destruct (ImageElement.isOutline k); cbn; repeat split; intros; reflexivity.
  - cbn [andb].
    destruct (String.eqb_spec (Node.Token line 0) "hover") as [Eh|Eh].
    + rewrite Eh. cbn [String.eqb Ascii.eqb Bool.eqb andb].
      destruct (2 <=? Node.Size line)%nat; cbn [andb].
      * destruct (String.eqb (ImageElement.name k) ""); cbn [fst].
        -- rewrite length_set_sprite. set_other.
           repeat split; try reflexivity; intros Hf; discriminate Hf.
        -- destruct (ImageElement.isOutline k); cbn; repeat split; intros; reflexivity.
      * destruct (ImageElement.isOutline k); cbn; repeat split; intros; reflexivity.
    + cbn [andb].
      destruct (ImageElement.isOutline k && String.eqb (Node.Token line 0) "colored");
        cbn; repeat split; intros; reflexivity.
Qed.

(** [Element::Load] touches the fields of the class through [ParseLine]
    only. *)
Lemma Load_child_ext (G : Globals) (globalAlignment : Point) (line : DataNode)
    (st : Loading ImageElement.Fields) :
  ext (Load_child G globalAlignment line st) = ext st
  \/ ext (Load_child G globalAlignment line st) = fst (ImageElement.ParseLine G line (ext st)).
Proof.
  unfold Load_child.
  repeat match goal with
         | |- context [if ?c then _ else _] => destruct c
         | |- context [let '(_, _) := ?p in _] => destruct p eqn:?
         end; cbn [ext ParseLine ImageElement.kind] in *; auto;
    right; match goal with E : ImageElement.ParseLine _ _ _ = _ |- _ => rewrite E end; reflexivity.
Qed.

Lemma Load_loop_unset_kept (G : Globals) (globalAlignment : Point)
    (lines : list DataNode) (st : Loading ImageElement.Fields) :
  unset_kept (ext st) (ext (Load_loop G globalAlignment lines st)) lines.
Proof.
  revert st. induction lines as [|line lines IH]; intros st.
  - cbn. repeat split; reflexivity.
  - rewrite Load_loop_cons.
    specialize (IH (Load_child G globalAlignment line st)).
    destruct IH as (Hn & Hl & Ha & Hi & Hh).
    pose proof (ParseLine_frame G line (ext st)) as (Pn & Pl & Pa & Pi & Ph).
    cbn [existsb].
    destruct (Load_child_ext G globalAlignment line st) as [E|E]; rewrite E in *.
    + repeat split; try assumption.
      * intros Hex. apply orb_false_elim in Hex as [_ Hex]. auto.
      * intros Hex. apply orb_false_elim in Hex as [_ Hex]. auto.
    + repeat split; try congruence.
      * intros Hex. apply orb_false_elim in Hex as [H1 Hex].
        rewrite (Hi Hex). auto.
      * intros Hex. apply orb_false_elim in Hex as [H1 Hex].
        rewrite (Hh Hex). auto.
Qed.

(** The block that fills in the undefined sprites. *)
Lemma fill_sprites_unset (k : ImageElement.Fields) (s : nat) :
  length (ImageElement.sprite k) = 3 ->
  s = INACTIVE \/ s = HOVER ->
  ImageElement.sprite_at k s = None ->
  ImageElement.sprite_at (ImageElement.fill_sprites k) s = ImageElement.sprite_at (ImageElement.fill_sprites k) ACTIVE.
Proof.
  intros Hlen Hs Hnone. unfold ImageElement.fill_sprites.
  destruct (ImageElement.sprite_at k ACTIVE) as [a|] eqn:Hact; cbn [is_null negb].
  2:{ rewrite Hnone, Hact. reflexivity. }
  assert (forall s' p k', length (ImageElement.sprite k') = 3 -> s' < 3 ->
            ImageElement.sprite_at (ImageElement.set_sprite s' p k') s' = p) as Hsame.
  { intros s' p k' Hk' Hs'. apply sprite_at_set_same. rewrite Hk'. exact Hs'. }
  destruct Hs as [-> | ->].
  - rewrite Hnone. cbn [is_null].
    destruct (is_null (ImageElement.sprite_at (ImageElement.set_sprite INACTIVE (Some a) k) HOVER));
      set_other; rewrite Hsame by (assumption || (unfold INACTIVE; lia));
      set_other; rewrite ?Hact; reflexivity.
  - destruct (is_null (ImageElement.sprite_at k INACTIVE)); set_other; rewrite Hnone;
      cbn [is_null];
      rewrite Hsame
        by (rewrite ?length_set_sprite; assumption || (unfold HOVER; lia));
      set_other; rewrite ?Hact; reflexivity.
Qed.
End ImageFacts.

(** C10.  After an image element is constructed, a state (inactive or
    hover) for which the node has no sprite line holds the sprite of the
    active state, so [GetSprite] returns for it what it returns for the
    active state.  An element made by [sprite <name>] has an empty dynamic
    name and the named sprite as its active one.  An [inactive] or [hover]
    line is accepted exactly when it has a second token and the element has
    an empty dynamic name; on an element with a dynamic name it is
    rejected, and [Load] reports it as unrecognized. *)
Theorem ImageElement_unset_states (G : Globals) (node : DataNode)
    (globalAlignment : Point) :
  let k := snd (fst (ImageElement.new G node globalAlignment)) in
  (forall (keyword : string) (s : nat),
      (keyword = "inactive" /\ s = INACTIVE) \/ (keyword = "hover" /\ s = HOVER) ->
      existsb (sets_sprite keyword) (children node) = false ->
      ImageElement.sprite_at k s = ImageElement.sprite_at k ACTIVE
      /\ forall info, ImageElement.GetSprite k info s = ImageElement.GetSprite k info ACTIVE)
  /\ (Node.Token node 0 = "sprite" -> 2 <= Node.Size node ->
      ImageElement.name k = ""
      /\ ImageElement.sprite_at k ACTIVE = SpriteSet_Get G (Node.Token node 1))
  /\ (forall (line : DataNode) (k0 : ImageElement.Fields),
      Node.Token line 0 = "inactive" \/ Node.Token line 0 = "hover" ->
      (snd (ImageElement.ParseLine G line k0) = true <->
       2 <= Node.Size line /\ ImageElement.name k0 = "")
      /\ (ImageElement.name k0 <> "" -> ImageElement.ParseLine G line k0 = (k0, false)))
  /\ (forall (line : DataNode) (st : Loading ImageElement.Fields),
      Node.Token line 0 = "inactive" \/ Node.Token line 0 = "hover" ->
      ImageElement.name (ext st) <> "" ->
      Load_child G globalAlignment line st =
      mkLoading (base st) (ext st) (isCentered st)
        (traces st ++ [mkTrace "Unrecognized interface element attribute:" line])).
Proof.
  intros k.
  assert (forall line k0,
             Node.Token line 0 = "inactive" \/ Node.Token line 0 = "hover" ->
             ImageElement.name k0 <> "" -> ImageElement.ParseLine G line k0 = (k0, false))
    as Hreject.
  { intros line k0 Htok Hname. unfold ImageElement.ParseLine.
    apply String.eqb_neq in Hname. rewrite Hname, !andb_false_r.
    destruct Htok as [-> | ->]; cbn [String.eqb Ascii.eqb Bool.eqb];
      rewrite andb_false_r; reflexivity. }
  split; [|split; [|split]].
  - intros keyword s Hs Hnone.
    assert (ImageElement.sprite_at k s = ImageElement.sprite_at k ACTIVE) as Heq.
    { subst k. unfold ImageElement.new.
      destruct (Node.Size node <? 2)%nat.
      { cbn [fst snd]. destruct Hs as [[_ ->] | [_ ->]]; reflexivity. }
      cbn [fst snd]. unfold Load.
      match goal with
      | |- context [Load_loop G globalAlignment (children node) ?st0] =>
          pose proof (ImageFacts.Load_loop_unset_kept G globalAlignment
                        (children node) st0) as (_ & Hlen & _ & Hi & Hh);
          cbn [ext] in Hlen, Hi, Hh
      end.
      apply ImageFacts.fill_sprites_unset.
      - rewrite Hlen. destruct (String.eqb (Node.Token node 0) "sprite"); reflexivity.
      - destruct Hs as [[_ ->] | [_ ->]]; [left | right]; reflexivity.
      - destruct Hs as [[-> ->] | [-> ->]]; [rewrite (Hi Hnone) | rewrite (Hh Hnone)];
          destruct (String.eqb (Node.Token node 0) "sprite"); reflexivity. }
    split; [exact Heq|].
    intros info. unfold ImageElement.GetSprite.
    destruct (String.eqb (ImageElement.name k) ""); [exact Heq | reflexivity].
  - intros Htok Hsize. subst k. unfold ImageElement.new.
    apply Nat.ltb_ge in Hsize. rewrite Hsize. cbn [fst snd]. unfold Load.
    match goal with
    | |- context [Load_loop G globalAlignment (children node) ?st0] =>
        pose proof (ImageFacts.Load_loop_unset_kept G globalAlignment
                      (children node) st0) as (Hname & Hlen & Hact & _ & _);
        cbn [ext] in Hname, Hlen, Hact
    end.
    rewrite Htok in *. cbn [String.eqb Ascii.eqb Bool.eqb] in *.
    remember (ext (Load_loop _ _ _ _)) as k1 eqn:Hk1. clear Hk1.
    assert (ImageElement.name (ImageElement.fill_sprites k1) = ImageElement.name k1
            /\ ImageElement.sprite_at (ImageElement.fill_sprites k1) ACTIVE =
               ImageElement.sprite_at k1 ACTIVE) as [Hfn Hfa].
    { unfold ImageElement.fill_sprites.
      destruct (is_null (ImageElement.sprite_at k1 ACTIVE)); cbn [negb];
        [split; reflexivity|].
      repeat match goal with
             | |- context [if ?c then _ else _] => destruct c
             end; ImageFacts.set_other; split; reflexivity. }
    rewrite Hfn, Hfa, Hname, Hact. split; reflexivity.
  - intros line k0 Htok. split; [|apply Hreject; exact Htok].
    unfold ImageElement.ParseLine.
    destruct (String.eqb_spec (ImageElement.name k0) "") as [En|En];
      rewrite ?andb_true_r, ?andb_false_r.
    + destruct Htok as [-> | ->]; cbn [String.eqb Ascii.eqb Bool.eqb andb];
        destruct (Nat.leb_spec 2 (Node.Size line)); cbn [snd];
        rewrite ?andb_false_r; cbn [snd];
        split; try discriminate; try (intros; split; assumption);
        try (intros [? _]; lia); intros _; reflexivity.
    + destruct Htok as [-> | ->]; cbn [String.eqb Ascii.eqb Bool.eqb andb];
        rewrite ?andb_false_r; cbn [snd];
        (split; [discriminate | intros [_ ?]; contradiction]).
  - intros line st Htok Hname. unfold Load_child.
    cbn [ParseLine ImageElement.kind].
    rewrite (Hreject line (ext st) Htok Hname).
    destruct Htok as [-> | ->]; cbn [String.eqb Ascii.eqb Bool.eqb andb orb];
      destruct st; reflexivity.
Qed.

Lemma ImageElement_unset_states_witness :
  let node := mkNode [Sample.tok "sprite"; Sample.tok "icon"]
                [Sample.line [Sample.tok "hover"; Sample.tok "blank"]] in
  let k := snd (fst (ImageElement.new Sample.G node Pt.zero)) in
  ImageElement.sprite_at k INACTIVE = Some Sample.icon
  /\ ImageElement.sprite_at k HOVER = Some Sample.blank.
Proof.
  intros node k.
  pose proof (ImageElement_unset_states Sample.G node Pt.zero) as (Hunset & Hsprite & _).
  destruct (Hunset "inactive" INACTIVE (or_introl (conj eq_refl eq_refl)) eq_refl)
    as [Hinactive _].
  destruct (Hsprite eq_refl (le_n 2)) as [_ Hactive].
  split.
  - fold k in Hinactive, Hactive. rewrite Hinactive, Hactive. reflexivity.
  - vm_compute. reflexivity.
Defined.

(** ** Comparisons of doubles *)

Lemma SFcompare_antisym (x y : spec_float) :
  SFcompare y x = option_map CompOpp (SFcompare x y).
Proof.
  destruct x as [sx | sx | | sx mx ex], y as [sy | sy | | sy my ey];
    try reflexivity;
    try (destruct sx; reflexivity);
    try (destruct sy; reflexivity);
    try (destruct sx, sy; reflexivity).
  cbn [SFcompare option_map].
  pose proof (Pos.compare_cont_antisym mx my Eq) as Hm. cbn [CompOpp] in Hm.
  destruct sx, sy; try reflexivity; f_equal;
    rewrite (Z.compare_antisym ex ey);
    destruct (ex ?= ey)%Z; cbn [CompOpp]; try reflexivity;
    rewrite <- Hm, ?CompOpp_involutive; reflexivity.
Qed.


(** [0 < x] excludes [x == 0]. *)
Lemma ltb_zero_not_d (x : double) :
  PrimFloat.ltb 0 x = true -> not_d x = false.
Proof.
  unfold not_d. rewrite FloatAxioms.ltb_spec, FloatAxioms.eqb_spec. unfold SFltb, SFeqb.
  rewrite (SFcompare_antisym (Prim2SF 0) (Prim2SF x)).
  destruct (SFcompare (Prim2SF 0) (Prim2SF x)) as [[| |]|]; cbn;
    intros E; try reflexivity; discriminate E.
Qed.





(** ** Bars *)

Section BarRuns.
Variables (start dimensions : Point) (width : double) (c : Color).
Variables (value filled empty : double).
Local Open Scope float_scope.



End BarRuns.




(** * Further properties of the code *)

(** ** Alignment keywords, in closed form *)

(** The alignment a token list produces depends on neither the node nor
    the traces so far. *)
Lemma ParseAlignment_loop_last (node : DataNode) (axis : bool) (toks : list string) :
  forall (a : Point) (log : list Trace),
    coord axis (fst (ParseAlignment_loop node toks (a, log))) =
    match last_on axis toks with
    | Some kw => value_of kw
    | None => coord axis a
    end.
Proof.
  induction toks as [|t toks IH]; intros a log; [reflexivity|].
  cbn [ParseAlignment_loop last_on].
  destruct (ParseAlignment_token node t (a, log)) as [a' log'] eqn:E.
  rewrite IH. destruct (last_on axis toks) as [kw|]; [reflexivity|].
  apply (f_equal fst) in E. rewrite ParseAlignment_token_axis in E. cbn [fst] in E.
  subst a'. case_bool_decide as Hax.
  - rewrite Hax. destruct axis; reflexivity.
  - destruct (axis_of t) as [[|]|], axis; try reflexivity; congruence.
Qed.

Lemma Point_eq (p q : Point) : X p = X q -> Y p = Y q -> p = q.
Proof. destruct p, q. cbn. intros -> ->. reflexivity. Qed.

Lemma ParseAlignment_loop_indep (node node' : DataNode) (toks : list string)
    (a : Point) (log log' : list Trace) :
  fst (ParseAlignment_loop node toks (a, log)) =
  fst (ParseAlignment_loop node' toks (a, log')).
Proof.
  apply Point_eq.
  - apply (eq_trans (ParseAlignment_loop_last node false toks a log)).
    symmetry. apply (ParseAlignment_loop_last node' false toks a log').
  - apply (eq_trans (ParseAlignment_loop_last node true toks a log)).
    symmetry. apply (ParseAlignment_loop_last node' true toks a log').
Qed.

Lemma value_of_cases (kw : string) :
  value_of kw = (-1)%float \/ value_of kw = 1%float.
Proof.
  unfold value_of. destruct (String.eqb kw "left" || String.eqb kw "top"); auto.
Qed.

Lemma ParseAlignment_loop_vector (node : DataNode) (toks : list string)
    (a : Point) (log : list Trace) :
  is_alignment_vector a ->
  is_alignment_vector (fst (ParseAlignment_loop node toks (a, log))).
Proof.
  intros [Hx Hy]. unfold is_alignment_vector.
  pose proof (ParseAlignment_loop_last node false toks a log) as Ex.
  pose proof (ParseAlignment_loop_last node true toks a log) as Ey.
  cbn [coord] in Ex, Ey. rewrite Ex, Ey. split.
  - destruct (last_on false toks) as [kw|]; [|exact Hx].
    destruct (value_of_cases kw) as [-> | ->]; auto.
  - destruct (last_on true toks) as [kw|]; [|exact Hy].
    destruct (value_of_cases kw) as [-> | ->]; auto.
Qed.

(** X1.  [ParseAlignment] keeps alignment vectors alignment vectors: each
    coordinate of the result is -1, 0 or +1 when that of the start is. *)
Theorem ParseAlignment_alignment_vector (node : DataNode) (a : Point) (i : nat) :
  is_alignment_vector a ->
  is_alignment_vector (fst (ParseAlignment node a i)).
Proof. intros Hvec. unfold ParseAlignment. apply ParseAlignment_loop_vector. exact Hvec. Qed.

Lemma ParseAlignment_alignment_vector_witness :
  is_alignment_vector
    (fst (ParseAlignment (Sample.line [Sample.tok "align"; Sample.tok "right"; Sample.tok "up"])
            Pt.zero 1)).
Proof.
  apply ParseAlignment_alignment_vector. split; right; left; reflexivity.
Defined.

(** X2.  Each coordinate of the alignment [ParseAlignment] returns is the
    value of the last keyword of its axis among the tokens read, and the
    coordinate it started with when there is none. *)
Theorem ParseAlignment_last_keyword (node : DataNode) (a : Point) (i : nat) :
  let toks := map text (drop i (tokens node)) in
  X (fst (ParseAlignment node a i)) =
    match last_on false toks with Some kw => value_of kw | None => X a end
  /\ Y (fst (ParseAlignment node a i)) =
    match last_on true toks with Some kw => value_of kw | None => Y a end.
Proof.
  intros toks. unfold ParseAlignment. split.
  - apply (ParseAlignment_loop_last node false toks a []).
  - apply (ParseAlignment_loop_last node true toks a []).
Qed.

(** X3.  Parsing the same alignment tokens a second time, starting from
    the result of the first, changes nothing. *)
Theorem ParseAlignment_idempotent (node : DataNode) (a : Point) (i : nat) :
  fst (ParseAlignment node (fst (ParseAlignment node a i)) i) =
  fst (ParseAlignment node a i).
Proof.
  unfold ParseAlignment.
  set (toks := map text (drop i (tokens node))).
  apply Point_eq.
  - pose proof (ParseAlignment_loop_last node false toks) as E. cbn [coord] in E.
    rewrite !E. destruct (last_on false toks); reflexivity.
  - pose proof (ParseAlignment_loop_last node true toks) as E. cbn [coord] in E.
    rewrite !E. destruct (last_on true toks); reflexivity.
Qed.

(** ** Element::Load, line by line *)

Section LoadLines.
Context {K : Type} `{Kind K} (G : Globals) (globalAlignment : Point).

(** The alignment after one line: an [align] line parses its tokens into
    it, every other line leaves it. *)
Lemma Load_child_alignment (child : DataNode) (st : Loading K) :
  alignment (base (Load_child G globalAlignment child st)) =
  fst (ParseAlignment_loop child (align_tokens child) (alignment (base st), [])).
Proof.
  unfold Load_child, align_tokens.
  destruct (String.eqb (Node.Token child 0) "align" && (1 <? Node.Size child)%nat).
  - unfold ParseAlignment.
    destruct (ParseAlignment_loop child _ _) as [a log]. reflexivity.
  - cbn [ParseAlignment_loop fst].
    repeat match goal with
           | |- context [if ?c then _ else _] => destruct c
           | |- context [let '(_, _) := ?p in _] => destruct p
           end; reflexivity.
Qed.

(** No line changes the conditions of the element. *)
Lemma Load_child_conditions (child : DataNode) (st : Loading K) :
  visibleIf (base (Load_child G globalAlignment child st)) = visibleIf (base st)
  /\ activeIf (base (Load_child G globalAlignment child st)) = activeIf (base st).
Proof.
  unfold Load_child.
  repeat match goal with
         | |- context [if ?c then _ else _] => destruct c
         | |- context [let '(_, _) := ?p in _] => destruct p
         end; split; reflexivity.
Qed.

(** While [isCentered] holds, only [center] and [from] lines move the
    center of the bounds. *)
Lemma Load_child_center_kept (child : DataNode) (st : Loading K) :
  isCentered st = true ->
  is_center child = false -> is_from_to child = false -> is_from_point child = false ->
  Center (bounds (base (Load_child G globalAlignment child st))) = Center (bounds (base st)).
Proof.
  intros Hcentered Hcenter Hfromto Hfrom.
  unfold is_center, is_from_to, is_from_point in *. unfold Load_child.
  rewrite Hcenter, Hcentered. unfold Load_width, Load_height. cbn [negb].
  destruct (String.eqb (Node.Token child 0) "from");
    destruct (3 <=? Node.Size child)%nat;
    destruct (6 <=? Node.Size child)%nat;
    destruct (String.eqb (Node.Token child 3) "to");
    cbn in Hfromto, Hfrom; try discriminate; cbn [andb];
  repeat match goal with
         | |- context [if ?c then _ else _] => destruct c
         | |- context [let '(_, _) := ?p in _] => destruct p
         end; reflexivity.
Qed.

Lemma Load_loop_center_kept (lines : list DataNode) :
  forall st : Loading K,
    isCentered st = true ->
    Forall (fun c => is_center c = false /\ is_from_to c = false
                     /\ is_from_point c = false) lines ->
    Center (bounds (base (Load_loop G globalAlignment lines st))) =
    Center (bounds (base st)).
Proof.
  induction lines as [|c lines IH]; intros st Hcentered Hall; [reflexivity|].
  inversion Hall as [|? ? (Hc & Hft & Hf) Hrest]; subst.
  rewrite Load_loop_cons, IH.
  - apply Load_child_center_kept; assumption.
  - rewrite Load_child_isCentered, Hcentered. reflexivity.
  - exact Hrest.
Qed.

Lemma Load_loop_conditions (lines : list DataNode) :
  forall st : Loading K,
    visibleIf (base (Load_loop G globalAlignment lines st)) = visibleIf (base st)
    /\ activeIf (base (Load_loop G globalAlignment lines st)) = activeIf (base st).
Proof.
  induction lines as [|c lines IH]; intros st; [split; reflexivity|].
  rewrite Load_loop_cons.
  destruct (IH (Load_child G globalAlignment c st)) as [-> ->].
  apply Load_child_conditions.
Qed.

(** X4.  [Element::Load] does not touch the conditions of the element:
    the visibility and activation conditions after it are those before. *)
Theorem Load_keeps_conditions (node : DataNode) (e : Element) (k : K) :
  visibleIf (base (Load G node globalAlignment e k)) = visibleIf e
  /\ activeIf (base (Load G node globalAlignment e k)) = activeIf e.
Proof. unfold Load. apply Load_loop_conditions. Qed.

(** X5.  Under a centered global alignment, a node without [center] and
    [from] lines leaves the center of the element where it was: resizing,
    aligning and padding never move it. *)
Theorem Load_centered_keeps_center (node : DataNode) (e : Element) (k : K) :
  Pt.is_zero globalAlignment = true ->
  Forall (fun c => is_center c = false /\ is_from_to c = false
                   /\ is_from_point c = false) (children node) ->
  Center (bounds (base (Load G node globalAlignment e k))) = Center (bounds e).
Proof.
  intros Hzero Hall. unfold Load.
  rewrite Load_loop_center_kept; [reflexivity | exact Hzero | exact Hall].
Qed.

(** X6.  After a [center <x> <y>] line, whatever the global alignment is,
    the center of the element is the point given, as long as no later
    [center] or [from] line moves it: later resizing grows the rectangle
    around that point. *)
Theorem Load_center_line_fixes_center (node : DataNode) (e : Element) (k : K)
    (pre post : list DataNode) (child : DataNode) :
  children node = pre ++ child :: post ->
  is_center child = true ->
  Forall (fun c => is_center c = false /\ is_from_to c = false
                   /\ is_from_point c = false) post ->
  Center (bounds (base (Load G node globalAlignment e k))) =
  mkPoint (Node.Value child 1) (Node.Value child 2).
Proof.
  intros Hchildren Hcenter Hall. unfold Load.
  rewrite Hchildren, Load_loop_app, Load_loop_cons.
  set (st := Load_loop G globalAlignment pre _).
  assert (Load_child G globalAlignment child st =
          mkLoading
            (set_bounds (mkRectangle (mkPoint (Node.Value child 1) (Node.Value child 2))
                           (Dimensions (bounds (base st)))) (base st))
            (ext st) true (traces st)) as Hstep.
  { unfold is_center in Hcenter. apply andb_prop in Hcenter as [Htok Hsize].
    apply String.eqb_eq in Htok. unfold Load_child. rewrite Htok, Hsize. reflexivity. }
  rewrite Load_loop_center_kept; [rewrite Hstep; reflexivity | | exact Hall].
  rewrite Hstep. reflexivity.
Qed.

Lemma Load_loop_alignment (node : DataNode) (lines : list DataNode) :
  forall st : Loading K,
    alignment (base (Load_loop G globalAlignment lines st)) =
    fst (ParseAlignment_loop node (concat (map align_tokens lines))
           (alignment (base st), [])).
Proof.
  induction lines as [|c lines IH]; intros st; [reflexivity|].
  rewrite Load_loop_cons, IH, Load_child_alignment.
  cbn [map concat]. rewrite ParseAlignment_loop_app.
  destruct (ParseAlignment_loop node (align_tokens c) (alignment (base st), []))
    as [a1 log1] eqn:E1.
  rewrite (ParseAlignment_loop_indep node node _ a1 log1 []).
  f_equal. f_equal. f_equal.
  rewrite (ParseAlignment_loop_indep c node _ _ [] []), E1. reflexivity.
Qed.

(** X8.  The alignment of an element after [Element::Load] is what
    [ParseAlignment] makes of the tokens of all its [align] lines, taken
    in order as one list: the lines add up, none resets the alignment. *)
Theorem Load_alignment_accumulates (node : DataNode) (e : Element) (k : K) :
  alignment (base (Load G node globalAlignment e k)) =
  fst (ParseAlignment_loop node (concat (map align_tokens (children node)))
         (alignment e, [])).
Proof. unfold Load. apply Load_loop_alignment. Qed.
End LoadLines.

(** X7.  On a named point, a line that is none of the directives of
    [Element::Load] (an unknown keyword, or a known one with too few
    tokens) changes nothing and is reported once as unrecognized. *)
Theorem Load_child_unrecognized (G : Globals) (globalAlignment : Point)
    (child : DataNode) (st : Loading unit) :
  is_directive child = false ->
  Load_child G globalAlignment child st =
  mkLoading (base st) (ext st) (isCentered st)
    (traces st ++ [mkTrace "Unrecognized interface element attribute:" child]).
Proof.
  unfold is_directive. intros Hnone.
  apply orb_false_elim in Hnone as [Hnone Hpad].
  apply orb_false_elim in Hnone as [Hnone Hfrom].
  apply orb_false_elim in Hnone as [Hnone Hfromto].
  apply orb_false_elim in Hnone as [Hnone Hcenter].
  apply orb_false_elim in Hnone as [Hnone Hheight].
  apply orb_false_elim in Hnone as [Halign Hwidth].
  assert (String.eqb (Node.Token child 0) "from" && (3 <=? Node.Size child)%nat = false)
    as Hfrom3.
  { unfold is_from_to, is_from_point in Hfromto, Hfrom.
    destruct (String.eqb (Node.Token child 0) "from");
      destruct (3 <=? Node.Size child)%nat;
      destruct (6 <=? Node.Size child)%nat;
      destruct (String.eqb (Node.Token child 3) "to");
      cbn in Hfromto, Hfrom; try discriminate; reflexivity. }
  unfold Load_child.
  fold (is_dimensions child). fold (is_width child). fold (is_height child).
  unfold is_align, is_center, is_from_to, is_pad in *.
  rewrite Halign, Hwidth, Hheight, Hcenter, Hfromto, Hfrom3, Hpad.
  cbn [orb ParseLine BaseKind]. reflexivity.
Qed.

Lemma Load_child_unrecognized_witness :
  traces (Load Sample.G
            (mkNode [Sample.tok "point"; Sample.tok "p"]
               [Sample.line [Sample.tok "center"; Sample.num "5" 5]])
            Pt.zero Element_new tt) =
  [mkTrace "Unrecognized interface element attribute:"
     (Sample.line [Sample.tok "center"; Sample.num "5" 5])].
Proof.
  unfold Load. cbn [children Load_loop fold_left].
  rewrite (Load_child_unrecognized Sample.G Pt.zero
             (Sample.line [Sample.tok "center"; Sample.num "5" 5%float]) _ eq_refl).
  reflexivity.
Defined.

Lemma Load_centered_keeps_center_witness :
  Center (bounds (base (Load Sample.G
                          (mkNode [Sample.tok "box"; Sample.tok "p"]
                             [Sample.line [Sample.tok "dimensions"; Sample.num "10" 10;
                                           Sample.num "20" 20];
                              Sample.line [Sample.tok "pad"; Sample.num "1" 1;
                                           Sample.num "2" 2]])
                          Pt.zero
                          (set_bounds (mkRectangle (mkPoint 3 4) Pt.zero) Element_new) tt))) =
  mkPoint 3 4.
Proof.
  apply (Load_centered_keeps_center (K := unit)); [reflexivity|].
  repeat constructor.
Defined.

Lemma Load_center_line_fixes_center_witness :
  Center (bounds (base (Load Sample.G
                          (mkNode [Sample.tok "box"; Sample.tok "p"]
                             [Sample.line [Sample.tok "center"; Sample.num "7" 7;
                                           Sample.num "8" 8];
                              Sample.line [Sample.tok "width"; Sample.num "10" 10]])
                          (mkPoint (-1) 1) Element_new tt))) =
  mkPoint 7 8.
Proof.
  apply (Load_center_line_fixes_center (K := unit) Sample.G (mkPoint (-1) 1) _ _ _ []
           [Sample.line [Sample.tok "width"; Sample.num "10" 10%float]]
           (Sample.line [Sample.tok "center"; Sample.num "7" 7%float; Sample.num "8" 8%float])).
  - reflexivity.
  - reflexivity.
  - repeat constructor.
Defined.

(** ** Interface::Load *)

(** The elements after one line: an element line adds one element, with
    the conditions in force, at the end; no other line adds any. *)
Lemma Iface_Load_child_elements (G : Globals) (child : DataNode) (st : Iface.Loading) :
  exists added,
    elements (Iface.iface (Iface.Load_child G child st)) =
    elements (Iface.iface st) ++ added
    /\ length added = (if is_element_line child then 1 else 0)
    /\ Forall (fun x => visibleIf (element_base x) = Iface.visibleIf_ st
                        /\ activeIf (element_base x) = Iface.activeIf_ st) added.
Proof.
  unfold Iface.Load_child, is_element_line, is_point_line, is_condition_line,
    is_image_line, is_text_line, is_bar_line.
  destruct ((String.eqb (Node.Token child 0) "point"
             || String.eqb (Node.Token child 0) "box") && (2 <=? Node.Size child)%nat).
  { exists []. cbn. rewrite app_nil_r. repeat split. constructor. }
  destruct (String.eqb (Node.Token child 0) "visible"
            || String.eqb (Node.Token child 0) "active").
  { exists []. destruct (String.eqb (Node.Token child 0) "visible");
      cbn; rewrite app_nil_r; repeat split; constructor. }
  cbn [negb andb].
  destruct (String.eqb (Node.Token child 0) "sprite"
            || String.eqb (Node.Token child 0) "image"
            || String.eqb (Node.Token child 0) "outline").
  { destruct (ImageElement.new G child _) as [[e k] log].
    eexists [_]. cbn. repeat split. repeat constructor. }
  destruct (String.eqb (Node.Token child 0) "label"
            || String.eqb (Node.Token child 0) "string"
            || String.eqb (Node.Token child 0) "button").
  { destruct (TextElement.new G child _) as [[e k] log].
    eexists [_]. cbn. repeat split. repeat constructor. }
  destruct (String.eqb (Node.Token child 0) "bar"
            || String.eqb (Node.Token child 0) "ring").
  { destruct (BarElement.new G child _) as [[e k] log].
    eexists [_]. cbn. repeat split. repeat constructor. }
  exists []. cbn. rewrite app_nil_r. repeat split. constructor.
Qed.

(** The conditions after one line. *)
Lemma Iface_Load_child_conditions (G : Globals) (child : DataNode) (st : Iface.Loading) :
  Iface.visibleIf_ (Iface.Load_child G child st) =
    (if String.eqb (Node.Token child 0) "visible" then condition_of child
     else Iface.visibleIf_ st)
  /\ Iface.activeIf_ (Iface.Load_child G child st) =
    (if String.eqb (Node.Token child 0) "active" then condition_of child
     else Iface.activeIf_ st).
Proof.
  unfold Iface.Load_child, condition_of.
  destruct (String.eqb_spec (Node.Token child 0) "visible") as [E|E].
  { rewrite E. cbn. split; reflexivity. }
  destruct (String.eqb_spec (Node.Token child 0) "active") as [E'|E'].
  { rewrite E'. cbn. split; reflexivity. }
  cbn [orb].
  repeat match goal with
         | |- context [if ?c then _ else _] => destruct c
         | |- context [let '(_, _) := ?p in _] => destruct p
         end; split; reflexivity.
Qed.

(** The named points and the global alignment after one line. *)
Lemma Iface_Load_child_points (G : Globals) (child : DataNode) (st : Iface.Loading) :
  Interface_alignment (Iface.iface (Iface.Load_child G child st)) =
    Interface_alignment (Iface.iface st)
  /\ points (Iface.iface (Iface.Load_child G child st)) =
    (if is_point_line child
     then <[Node.Token child 1 :=
              base (Load G child (Interface_alignment (Iface.iface st))
                      (match points (Iface.iface st) !! Node.Token child 1 with
                       | Some p => p
                       | None => Element_new
                       end) tt)]> (points (Iface.iface st))
     else points (Iface.iface st)).
Proof.
  unfold Iface.Load_child, is_point_line.
  destruct ((String.eqb (Node.Token child 0) "point"
             || String.eqb (Node.Token child 0) "box") && (2 <=? Node.Size child)%nat).
  { split; reflexivity. }
  repeat match goal with
         | |- context [if ?c then _ else _] => destruct c
         | |- context [let '(_, _) := ?p in _] => destruct p
         end; split; reflexivity.
Qed.

Section IfaceLoop.
Variable G : Globals.

Lemma Iface_Load_loop_elements (lines : list DataNode) :
  forall st, exists added,
    elements (Iface.iface (Interface_Load_loop G lines st)) = elements (Iface.iface st) ++ added
    /\ length added = length (List.filter is_element_line lines).
Proof.
  induction lines as [|c lines IH]; intros st.
  - exists []. cbn. rewrite app_nil_r. split; reflexivity.
  - cbn [Interface_Load_loop fold_left List.filter].
    destruct (IH (Iface.Load_child G c st)) as (more & Hmore & Hlen).
    destruct (Iface_Load_child_elements G c st) as (added & Hadded & Hone & _).
    exists (added ++ more). unfold Interface_Load_loop in Hmore.
    rewrite Hmore, Hadded, <- app_assoc.
    split; [reflexivity|]. rewrite length_app, Hlen, Hone.
    destruct (is_element_line c); reflexivity.
Qed.

Lemma Iface_Load_loop_conditions (lines : list DataNode) :
  forall st,
    Iface.visibleIf_ (Interface_Load_loop G lines st) =
      last_condition "visible" lines (Iface.visibleIf_ st)
    /\ Iface.activeIf_ (Interface_Load_loop G lines st) =
      last_condition "active" lines (Iface.activeIf_ st).
Proof.
  induction lines as [|c lines IH]; intros st; [split; reflexivity|].
  cbn [Interface_Load_loop fold_left last_condition].
  destruct (IH (Iface.Load_child G c st)) as [Hv Ha]. unfold Interface_Load_loop in Hv, Ha.
  destruct (Iface_Load_child_conditions G c st) as [Hv1 Ha1].
  rewrite Hv, Ha, Hv1, Ha1. split; reflexivity.
Qed.

Lemma Iface_Load_loop_alignment (lines : list DataNode) :
  forall st,
    Interface_alignment (Iface.iface (Interface_Load_loop G lines st)) =
    Interface_alignment (Iface.iface st).
Proof.
  induction lines as [|c lines IH]; intros st; [reflexivity|].
  cbn [Interface_Load_loop fold_left]. unfold Interface_Load_loop in IH. rewrite IH.
  apply Iface_Load_child_points.
Qed.

Lemma Iface_Load_loop_points_kept (lines : list DataNode) (name : string) :
  forall st,
    is_Some (points (Iface.iface st) !! name) ->
    is_Some (points (Iface.iface (Interface_Load_loop G lines st)) !! name).
Proof.
  induction lines as [|c lines IH]; intros st Hsome; [exact Hsome|].
  cbn [Interface_Load_loop fold_left]. apply IH.
  destruct (Iface_Load_child_points G c st) as [_ ->].
  destruct (is_point_line c); [|exact Hsome].
  destruct (decide (Node.Token c 1 = name)) as [->|Hne].
  - rewrite lookup_insert_eq. eexists. reflexivity.
  - rewrite lookup_insert_ne by exact Hne. exact Hsome.
Qed.

Lemma Iface_Load_loop_points_declared (lines : list DataNode) (child : DataNode) :
  forall st,
    In child lines -> is_point_line child = true ->
    is_Some (points (Iface.iface (Interface_Load_loop G lines st)) !! Node.Token child 1).
Proof.
  induction lines as [|c lines IH]; intros st Hin Hpoint; [destruct Hin|].
  cbn [Interface_Load_loop fold_left]. destruct Hin as [-> | Hin].
  - apply Iface_Load_loop_points_kept.
    destruct (Iface_Load_child_points G child st) as [_ ->].
    rewrite Hpoint, lookup_insert_eq. eexists. reflexivity.
  - apply IH; assumption.
Qed.

Lemma Iface_Load_loop_points_other (lines : list DataNode) (name : string) :
  forall st,
    Forall (fun c => is_point_line c = true -> Node.Token c 1 <> name) lines ->
    points (Iface.iface (Interface_Load_loop G lines st)) !! name = points (Iface.iface st) !! name.
Proof.
  induction lines as [|c lines IH]; intros st Hall; [reflexivity|].
  inversion Hall as [|? ? Hc Hrest]; subst.
  cbn [Interface_Load_loop fold_left]. unfold Interface_Load_loop in IH. rewrite (IH _ Hrest).
  destruct (Iface_Load_child_points G c st) as [_ ->].
  destruct (is_point_line c); [|reflexivity].
  rewrite lookup_insert_ne by (apply Hc; reflexivity). reflexivity.
Qed.

Lemma Iface_Load_unfold (node : DataNode) (i : Interface) :
  (2 <= Node.Size node)%nat ->
  Iface.Load G node i =
  let st := Interface_Load_loop G (children node)
              (Iface.mkLoading
                 (mkInterface (fst (ParseAlignment node (Interface_alignment i) 2))
                    (elements i) (points i))
                 "" "" (snd (ParseAlignment node (Interface_alignment i) 2))) in
  (Iface.iface st, Iface.traces_ st).
Proof.
  intros Hsize. unfold Iface.Load. apply Nat.ltb_ge in Hsize. rewrite Hsize.
  destruct (ParseAlignment node (Interface_alignment i) 2) as [a log]. reflexivity.
Qed.

(** X9.  [Interface::Load] only appends to the list of elements: the
    elements the interface had stay in front, in their order, and one
    element is added for each child line that names a class of element.
    An interface node with fewer than two tokens adds none. *)
Theorem Interface_Load_appends (node : DataNode) (i : Interface) :
  exists added,
    elements (fst (Iface.Load G node i)) = elements i ++ added
    /\ length added =
       (if (Node.Size node <? 2)%nat then 0
        else length (List.filter is_element_line (children node))).
Proof.
  destruct (Nat.ltb_spec (Node.Size node) 2) as [Hsmall|Hsize].
  - exists []. unfold Iface.Load. apply Nat.ltb_lt in Hsmall. rewrite Hsmall.
    cbn. rewrite app_nil_r. split; reflexivity.
  - rewrite (Iface_Load_unfold node i Hsize). cbn zeta. cbn [fst].
    apply (Iface_Load_loop_elements (children node)).
Qed.

Lemma Iface_Load_loop_app (l1 l2 : list DataNode) (st : Iface.Loading) :
  Interface_Load_loop G (l1 ++ l2) st = Interface_Load_loop G l2 (Interface_Load_loop G l1 st).
Proof. unfold Interface_Load_loop. apply fold_left_app. Qed.

(** X10.  An element gets the conditions that are in force where its line
    stands: those of the last [visible] and the last [active] line before
    it (none, when that line has no [if] or there is no such line).  Lines
    after it do not change them. *)
Theorem Interface_Load_element_conditions (node : DataNode) (i : Interface)
    (pre post : list DataNode) (child : DataNode) :
  (2 <= Node.Size node)%nat ->
  children node = pre ++ child :: post ->
  is_element_line child = true ->
  exists x,
    elements (fst (Iface.Load G node i))
      !! (length (elements i) + length (List.filter is_element_line pre))%nat = Some x
    /\ visibleIf (element_base x) = last_condition "visible" pre ""
    /\ activeIf (element_base x) = last_condition "active" pre "".
Proof.
  intros Hsize Hchildren Hline.
  rewrite (Iface_Load_unfold node i Hsize). cbn zeta. cbn [fst].
  rewrite Hchildren, Iface_Load_loop_app.
  set (st0 := Iface.mkLoading _ _ _ _).
  destruct (Iface_Load_loop_elements pre st0) as (before & Hbefore & Hcount).
  destruct (Iface_Load_loop_conditions pre st0) as [Hv Ha].
  change (Interface_Load_loop G (child :: post) (Interface_Load_loop G pre st0))
    with (Interface_Load_loop G post (Iface.Load_child G child (Interface_Load_loop G pre st0))).
  destruct (Iface_Load_child_elements G child (Interface_Load_loop G pre st0))
    as (added & Hadded & Hone & Hconds).
  destruct (Iface_Load_loop_elements post
              (Iface.Load_child G child (Interface_Load_loop G pre st0)))
    as (after & Hafter & _).
  rewrite Hline in Hone. destruct added as [|x [|? ?]]; try discriminate Hone.
  exists x. inversion Hconds as [|? ? [Hxv Hxa] _]; subst.
  rewrite Hafter, Hadded, Hbefore. subst st0. cbn [Iface.iface elements].
  split; [|split].
  - rewrite <- Hcount, <- length_app, <- app_assoc.
    apply list_lookup_middle. reflexivity.
  - rewrite Hxv, Hv. reflexivity.
  - rewrite Hxa, Ha. reflexivity.
Qed.

(** X11.  After [Interface::Load] of a named interface, every [point] or
    [box] line with a name has a named point, and a name that no such line
    declares has the point it had before, or none. *)
Theorem Interface_Load_points (node : DataNode) (i : Interface) :
  (2 <= Node.Size node)%nat ->
  (forall child,
      In child (children node) -> is_point_line child = true ->
      Iface.HasPoint (fst (Iface.Load G node i)) (Node.Token child 1) = true)
  /\ (forall name,
        Forall (fun c => is_point_line c = true -> Node.Token c 1 <> name) (children node) ->
        points (fst (Iface.Load G node i)) !! name = points i !! name).
Proof.
  intros Hsize. rewrite (Iface_Load_unfold node i Hsize). cbn zeta. cbn [fst]. split.
  - intros child Hin Hpoint. unfold Iface.HasPoint. apply bool_decide_eq_true.
    apply Iface_Load_loop_points_declared; assumption.
  - intros name Hall. rewrite (Iface_Load_loop_points_other _ name _ Hall). reflexivity.
Qed.

(** X12.  [Interface::Load] sets the global alignment from the tokens of
    the interface line after its name, and no child line changes it: every
    element and point of the interface is loaded under that one alignment,
    which is an alignment vector when the one before was. *)
Theorem Interface_Load_alignment (node : DataNode) (i : Interface) :
  (2 <= Node.Size node)%nat ->
  Interface_alignment (fst (Iface.Load G node i)) =
    fst (ParseAlignment node (Interface_alignment i) 2)
  /\ (is_alignment_vector (Interface_alignment i) ->
      is_alignment_vector (Interface_alignment (fst (Iface.Load G node i)))).
Proof.
  intros Hsize. rewrite (Iface_Load_unfold node i Hsize). cbn zeta. cbn [fst].
  rewrite Iface_Load_loop_alignment. cbn [Iface.iface Interface_alignment].
  split; [reflexivity|]. intros Hvec.
  unfold ParseAlignment. apply ParseAlignment_loop_vector. exact Hvec.
Qed.
End IfaceLoop.

Lemma Interface_Load_element_conditions_witness :
  let node :=
    mkNode [Sample.tok "interface"; Sample.tok "hud"]
      [Sample.line [Sample.tok "visible"; Sample.tok "if"; Sample.tok "on"];
       Sample.line [Sample.tok "label"; Sample.tok "one"];
       Sample.line [Sample.tok "visible"];
       Sample.line [Sample.tok "active"; Sample.tok "if"; Sample.tok "armed"];
       Sample.line [Sample.tok "button"; Sample.tok "b"; Sample.tok "Buy"];
       Sample.line [Sample.tok "active"]] in
  exists x,
    elements (fst (Iface.Load Sample.G node Interface_new)) !! 1%nat = Some x
    /\ visibleIf (element_base x) = "" /\ activeIf (element_base x) = "armed".
Proof.
  intros node.
  exact (Interface_Load_element_conditions Sample.G node Interface_new
           [Sample.line [Sample.tok "visible"; Sample.tok "if"; Sample.tok "on"];
            Sample.line [Sample.tok "label"; Sample.tok "one"];
            Sample.line [Sample.tok "visible"];
            Sample.line [Sample.tok "active"; Sample.tok "if"; Sample.tok "armed"]]
           [Sample.line [Sample.tok "active"]]
           (Sample.line [Sample.tok "button"; Sample.tok "b"; Sample.tok "Buy"])
           (le_n 2) eq_refl eq_refl).
Defined.

Lemma Interface_Load_points_witness :
  let node :=
    mkNode [Sample.tok "interface"; Sample.tok "hud"]
      [Sample.line [Sample.tok "point"; Sample.tok "radar"];
       Sample.line [Sample.tok "box"]] in
  Iface.HasPoint (fst (Iface.Load Sample.G node Interface_new)) "radar" = true
  /\ points (fst (Iface.Load Sample.G node Interface_new)) !! "target" = None.
Proof.
  intros node.
  destruct (Interface_Load_points Sample.G node Interface_new (le_n 2)) as [Hhas Hother].
  split.
  - apply (Hhas (Sample.line [Sample.tok "point"; Sample.tok "radar"]));
      [left; reflexivity | reflexivity].
  - rewrite Hother; [reflexivity|].
    repeat constructor; discriminate.
Defined.

Lemma Interface_Load_alignment_witness :
  Interface_alignment
    (fst (Iface.Load Sample.G
            (mkNode [Sample.tok "interface"; Sample.tok "left"; Sample.tok "bottom"] [])
            Interface_new)) = mkPoint 0 1.
Proof.
  destruct (Interface_Load_alignment Sample.G
              (mkNode [Sample.tok "interface"; Sample.tok "left"; Sample.tok "bottom"] [])
              Interface_new) as [Halign _]; [cbn; lia|].
  rewrite Halign. reflexivity.
Defined.

(** ** Interface::Draw *)

Section IfaceDraw.
Variables (G : Globals) (anchor : Point) (info : Information).

(** Drawing a list made of two parts is drawing the first part, then the
    second on the panel the first left. *)
Lemma Iface_Draw_loop_app (l1 l2 : list AnyElement) (panel : option Panel)
    (fuel : nat) :
  Iface.Draw_loop G anchor info panel (l1 ++ l2) fuel =
  match Iface.Draw_loop G anchor info panel l1 fuel with
  | None => None
  | Some (panel1, calls1) =>
      match Iface.Draw_loop G anchor info panel1 l2 fuel with
      | None => None
      | Some (panel2, calls2) => Some (panel2, calls1 ++ calls2)
      end
  end.
Proof.
  revert panel. induction l1 as [|x l1 IH]; intros panel.
  - cbn [app Iface.Draw_loop].
    destruct (Iface.Draw_loop G anchor info panel l2 fuel) as [[p c]|]; reflexivity.
  - cbn [app Iface.Draw_loop].
    destruct (Iface.DrawAt_any G anchor info panel x fuel) as [[p c]|]; [|reflexivity].
    rewrite IH.
    destruct (Iface.Draw_loop G anchor info p l1 fuel) as [[p1 c1]|]; [|reflexivity].
    destruct (Iface.Draw_loop G anchor info p1 l2 fuel) as [[p2 c2]|]; [|reflexivity].
    rewrite app_assoc. reflexivity.
Qed.

(** What drawing one element does to the panel. *)
Lemma DrawAt_any_panel (x : AnyElement) (panel : option Panel) (fuel : nat)
    (panel' : option Panel) (calls : list DrawCall) :
  Iface.DrawAt_any G anchor info panel x fuel = Some (panel', calls) ->
  panel' = match panel with
           | Some p => Some (p ++ button_zone anchor info x)
           | None => None
           end.
Proof.
  unfold Iface.DrawAt_any, button_zone.
  destruct x as [e k | e k | e k];
    (destruct (HasCondition info (visibleIf e)) eqn:Hvis;
     [rewrite (DrawAt_visible G anchor info panel e k fuel Hvis); cbn zeta
     |rewrite (DrawAt_invisible G anchor info panel e k fuel Hvis)]);
    cbn [Place ImageElement.kind TextElement.kind BarElement.kind andb];
    try (intros [= <- _]; destruct panel; rewrite ?app_nil_r; reflexivity);
    try (destruct (Draw _ _ _ _ _ _); [|discriminate]; intros [= <- _];
         destruct panel; rewrite ?app_nil_r; reflexivity).
  destruct (Draw _ _ _ _ _ _); [|discriminate]. intros [= <- _].
  destruct panel as [p|]; [|reflexivity]. unfold TextElement.Place, AddZone.
  destruct (TextElement.no_key (TextElement.buttonKey k)); cbn [negb];
    rewrite ?app_nil_r; reflexivity.
Qed.

(** The panel after the loop of [Interface::Draw]. *)
Lemma Iface_Draw_loop_zones (l : list AnyElement) (panel : option Panel) (fuel : nat)
    (panel' : option Panel) (calls : list DrawCall) :
  Iface.Draw_loop G anchor info panel l fuel = Some (panel', calls) ->
  panel' = match panel with
           | Some p => Some (p ++ concat (map (button_zone anchor info) l))
           | None => None
           end.
Proof.
  revert panel panel' calls. induction l as [|x l IH]; intros panel panel' calls.
  - cbn. intros [= <- _]. destruct panel; rewrite ?app_nil_r; reflexivity.
  - cbn [Iface.Draw_loop map concat].
    destruct (Iface.DrawAt_any G anchor info panel x fuel) as [[p1 c1]|] eqn:Hx;
      [|discriminate].
    destruct (Iface.Draw_loop G anchor info p1 l fuel) as [[p2 c2]|] eqn:Hl;
      [|discriminate].
    intros [= <- _]. rewrite (IH _ _ _ Hl), (DrawAt_any_panel _ _ _ _ _ Hx).
    destruct panel; [rewrite app_assoc|]; reflexivity.
Qed.

(** Elements without a loop are drawn for any [fuel], with at most one
    draw call each. *)
Lemma Iface_Draw_loop_at_once (l : list AnyElement) (panel : option Panel)
    (fuel : nat) :
  forallb draws_at_once l = true ->
  exists panel' calls,
    Iface.Draw_loop G anchor info panel l fuel = Some (panel', calls)
    /\ length calls <= length l.
Proof.
  revert panel. induction l as [|x l IH]; intros panel Hall.
  - exists panel, []. split; [reflexivity | cbn; lia].
  - cbn [forallb] in Hall. apply andb_prop in Hall as [Hx Hall].
    assert (exists p1 c1,
               Iface.DrawAt_any G anchor info panel x fuel = Some (p1, c1)
               /\ length c1 <= 1) as (p1 & c1 & Hdraw & Hone).
    { unfold Iface.DrawAt_any.
      destruct x as [e k | e k | e k];
        (destruct (HasCondition info (visibleIf e)) eqn:Hvis;
         [rewrite (DrawAt_visible G anchor info panel e k fuel Hvis); cbn zeta
         |rewrite (DrawAt_invisible G anchor info panel e k fuel Hvis);
          eexists _, _; split; [reflexivity | cbn; lia]]).
      - cbn [Draw ImageElement.kind]. unfold ImageElement.Draw.
        destruct (ImageElement.GetSprite _ _ _) as [s|];
          [destruct (not_d (sprite_Width s) || not_d (sprite_Height s));
           [|destruct (ImageElement.isOutline k)]|];
          eexists _, _; (split; [reflexivity | cbn; lia]).
      - cbn [Draw TextElement.kind]. unfold TextElement.Draw.
        destruct (TextElement.color_at _ _);
          eexists _, _; (split; [reflexivity | cbn; lia]).
      - cbn [draws_at_once] in Hx. cbn [Draw BarElement.kind]. unfold BarElement.Draw.
        rewrite Hx.
        destruct (BarElement.color k);
          [destruct (not_d (BarElement.width k) || not_d _);
           [|destruct (not_d _ || not_d _)]|];
          eexists _, _; (split; [reflexivity | cbn; lia]). }
    destruct (IH p1 Hall) as (p2 & c2 & Hrest & Hlen).
    exists p2, (c1 ++ c2). cbn [Iface.Draw_loop]. rewrite Hdraw, Hrest.
    split; [reflexivity|]. rewrite length_app. cbn [length]. lia.
Qed.
End IfaceDraw.

(** ** The fields of the classes through Element::Load *)

Section ExtInvariant.
Context {K : Type} `{Kind K} (G : Globals) (globalAlignment : Point).

(** [Element::Load] changes the fields of the class through [ParseLine]
    only, and only on the line at hand. *)
Lemma Load_child_ext_cases (line : DataNode) (st : Loading K) :
  ext (Load_child G globalAlignment line st) = ext st
  \/ ext (Load_child G globalAlignment line st) = fst (ParseLine G line (ext st)).
Proof.
  unfold Load_child.
  destruct (ParseLine G line (ext st)) as [k recognized].
  destruct (ParseAlignment line (alignment (base st)) 1) as [a log].
  repeat match goal with
         | |- context [if ?c then _ else _] => destruct c
         end; cbn [ext fst]; auto.
Qed.

(** A property of the fields that [ParseLine] keeps on each of the lines
    holds after the loop when it held before. *)
Lemma Load_loop_ext_invariant (P : K -> Prop) (lines : list DataNode) :
  Forall (fun line => forall k, P k -> P (fst (ParseLine G line k))) lines ->
  forall st, P (ext st) -> P (ext (Load_loop G globalAlignment lines st)).
Proof.
  induction lines as [|line lines IH]; intros Hkeep st HP; [exact HP|].
  inversion Hkeep as [|? ? Hline Hrest]; subst.
  rewrite Load_loop_cons. apply (IH Hrest).
  destruct (Load_child_ext_cases line st) as [-> | ->]; [exact HP | apply Hline; exact HP].
Qed.
End ExtInvariant.

(** ** Image elements with a dynamic name *)

Lemma ImageElement_ParseLine_name (G : Globals) (line : DataNode)
    (k : ImageElement.Fields) :
  ImageElement.name (fst (ImageElement.ParseLine G line k)) = ImageElement.name k
  /\ length (ImageElement.sprite (fst (ImageElement.ParseLine G line k))) =
     length (ImageElement.sprite k).
Proof.
  unfold ImageElement.ParseLine, ImageElement.set_sprite.
  repeat match goal with
         | |- context [if ?c then _ else _] => destruct c
         end; cbn [fst ImageElement.name ImageElement.sprite];
    rewrite ?length_insert; split; reflexivity.
Qed.

Lemma ImageElement_fill_sprites_name (k : ImageElement.Fields) :
  ImageElement.name (ImageElement.fill_sprites k) = ImageElement.name k
  /\ length (ImageElement.sprite (ImageElement.fill_sprites k)) =
     length (ImageElement.sprite k).
Proof.
  unfold ImageElement.fill_sprites, ImageElement.set_sprite.
  repeat match goal with
         | |- context [if ?c then _ else _] => destruct c
         end; cbn [ImageElement.name ImageElement.sprite];
    rewrite ?length_insert; split; reflexivity.
Qed.

(** X16.  An image element made by [image <name>] or [outline <name>]
    keeps that name, and takes its sprite from the provider under that
    name in every state: no line of the node can give it a sprite of its
    own. *)
Theorem ImageElement_dynamic_sprite (G : Globals) (node : DataNode)
    (globalAlignment : Point) :
  (2 <= Node.Size node)%nat ->
  Node.Token node 0 <> "sprite" ->
  Node.Token node 1 <> "" ->
  let k := snd (fst (ImageElement.new G node globalAlignment)) in
  ImageElement.name k = Node.Token node 1
  /\ forall info state,
       ImageElement.GetSprite k info state = Info_GetSprite info (Node.Token node 1).
Proof.
  intros Hsize Hkind Hname k.
  assert (ImageElement.name k = Node.Token node 1) as Hk.
  { subst k. unfold ImageElement.new. apply Nat.ltb_ge in Hsize. rewrite Hsize.
    apply String.eqb_neq in Hkind. rewrite Hkind. cbn [fst snd].
    lazy zeta.
    match goal with
    | |- ImageElement.name (ImageElement.fill_sprites ?k1) = _ =>
        destruct (ImageElement_fill_sprites_name k1) as [-> _]
    end.
    unfold Load.
    apply (Load_loop_ext_invariant G globalAlignment
             (fun k => ImageElement.name k = Node.Token node 1)); [|reflexivity].
    apply Forall_forall. intros line _ k0 Hk0.
    cbn [ParseLine ImageElement.kind].
    destruct (ImageElement_ParseLine_name G line k0) as [-> _]. exact Hk0. }
  split; [exact Hk|]. intros info state. unfold ImageElement.GetSprite.
  rewrite Hk. apply String.eqb_neq in Hname. rewrite Hname. reflexivity.
Qed.

Lemma ImageElement_dynamic_sprite_witness :
  let node := mkNode [Sample.tok "outline"; Sample.tok "ship"]
                [Sample.line [Sample.tok "hover"; Sample.tok "blank"];
                 Sample.line [Sample.tok "colored"]] in
  ImageElement.GetSprite (snd (fst (ImageElement.new Sample.G node Pt.zero)))
    Sample.info HOVER = Some Sample.icon.
Proof.
  intros node.
  destruct (ImageElement_dynamic_sprite Sample.G node Pt.zero) as [_ Hsprite].
  - cbn; lia.
  - discriminate.
  - discriminate.
  - rewrite Hsprite. reflexivity.
Defined.

(** ** The arrays indexed by the state *)

Lemma TextElement_ParseLine_frame (G : Globals) (line : DataNode)
    (k : TextElement.Fields) :
  let k' := fst (TextElement.ParseLine G line k) in
  length (TextElement.color k') = length (TextElement.color k)
  /\ TextElement.buttonKey k' = TextElement.buttonKey k
  /\ TextElement.isDynamic k' = TextElement.isDynamic k
  /\ TextElement.str k' = TextElement.str k
  /\ (sets_color line = false -> TextElement.color k' = TextElement.color k).
Proof.
  unfold TextElement.ParseLine, TextElement.set_color, sets_color.
  destruct (2 <=? Node.Size line)%nat; rewrite ?andb_true_r, ?andb_false_r;
    [|cbn; repeat split; reflexivity].
  destruct (String.eqb (Node.Token line 0) "size");
    [cbn; repeat split; reflexivity|].
  destruct (String.eqb (Node.Token line 0) "color");
    [cbn; rewrite length_insert; repeat split; try reflexivity; discriminate|].
  destruct (String.eqb (Node.Token line 0) "inactive");
    [cbn; rewrite length_insert; repeat split; try reflexivity; discriminate|].
  destruct (String.eqb (Node.Token line 0) "hover");
    [cbn; rewrite length_insert; repeat split; try reflexivity; discriminate|].
  cbn. repeat split; reflexivity.
Qed.

Lemma TextElement_fill_colors_length (G : Globals) (k : TextElement.Fields) :
  length (TextElement.color (TextElement.fill_colors G k)) = length (TextElement.color k).
Proof.
  unfold TextElement.fill_colors, TextElement.set_color.
  repeat match goal with
         | |- context [if ?c then _ else _] => destruct c
         end; cbn [TextElement.color]; rewrite ?length_insert; reflexivity.
Qed.

Lemma ImageElement_new_length (G : Globals) (node : DataNode) (globalAlignment : Point) :
  length (ImageElement.sprite (snd (fst (ImageElement.new G node globalAlignment)))) = 3.
Proof.
  unfold ImageElement.new. destruct (Node.Size node <? 2)%nat; [reflexivity|].
  cbn [fst snd]. lazy zeta.
  match goal with
  | |- length (ImageElement.sprite (ImageElement.fill_sprites ?k1)) = _ =>
      destruct (ImageElement_fill_sprites_name k1) as [_ ->]
  end.
  unfold Load.
  apply (Load_loop_ext_invariant G globalAlignment
           (fun k => length (ImageElement.sprite k) = 3)).
  - apply Forall_forall. intros line _ k0 Hk0. cbn [ParseLine ImageElement.kind].
    destruct (ImageElement_ParseLine_name G line k0) as [_ ->]. exact Hk0.
  - cbn [ext]. destruct (String.eqb (Node.Token node 0) "sprite"); reflexivity.
Qed.

Lemma TextElement_new_length (G : Globals) (node : DataNode) (globalAlignment : Point) :
  length (TextElement.color (snd (fst (TextElement.new G node globalAlignment)))) = 3.
Proof.
  unfold TextElement.new. destruct (Node.Size node <? 2)%nat; [reflexivity|].
  cbn [fst snd]. lazy zeta. rewrite TextElement_fill_colors_length.
  unfold Load.
  apply (Load_loop_ext_invariant G globalAlignment
           (fun k => length (TextElement.color k) = 3)).
  - apply Forall_forall. intros line _ k0 Hk0. cbn [ParseLine TextElement.kind].
    destruct (TextElement_ParseLine_frame G line k0) as [-> _]. exact Hk0.
  - cbn [ext].
    destruct (String.eqb (Node.Token node 0) "button"); [|reflexivity].
    destruct (3 <=? Node.Size node)%nat; reflexivity.
Qed.

Lemma DrawAt_state_bound (G : Globals) (anchor : Point) (info : Information)
    (e : Element) :
  DrawAt_state G anchor info e < 3.
Proof.
  rewrite DrawAt_state_cases.
  destruct (HasCondition info (activeIf e)); cbn [negb]; [|unfold INACTIVE; lia].
  destruct (Rect.Contains _ _); unfold HOVER, ACTIVE; lia.
Qed.

(** X17.  The state [DrawAt] computes is always an index of the
    three-entry arrays of sprites and colours: whatever node an image or a
    text element was constructed from, and whatever the provider and the
    pointer are, [sprite[state]] and [color[state]] are read in range. *)
Theorem state_index_in_range (G : Globals) (node : DataNode) (globalAlignment : Point)
    (anchor : Point) (info : Information) (e : Element) :
  is_Some (ImageElement.sprite (snd (fst (ImageElement.new G node globalAlignment)))
             !! DrawAt_state G anchor info e)
  /\ is_Some (TextElement.color (snd (fst (TextElement.new G node globalAlignment)))
                !! DrawAt_state G anchor info e).
Proof.
  pose proof (DrawAt_state_bound G anchor info e) as Hstate.
  split; apply lookup_lt_is_Some.
  - rewrite ImageElement_new_length. exact Hstate.
  - rewrite TextElement_new_length. exact Hstate.
Qed.

(** ** The colours of a text element *)

(** X18.  When the palette has the five theme colours, a text element
    constructed from a node of at least two tokens has a colour for every
    state, whatever its lines say, so drawing it issues exactly one call to
    the font, in any state. *)
Theorem TextElement_always_coloured (G : Globals) (node : DataNode)
    (globalAlignment : Point) :
  (forall name, In name ["active"; "inactive"; "hover"; "bright"; "medium"] ->
                is_Some (Colors_Get G name)) ->
  (2 <= Node.Size node)%nat ->
  let k := snd (fst (TextElement.new G node globalAlignment)) in
  forall (e : Element) (rect : Rectangle) (info : Information) (state fuel : nat),
    state < 3 ->
    exists c,
      TextElement.color_at k state = Some c
      /\ Draw e k rect info state fuel =
         Some [Font_Draw (TextElement.fontSize k) (TextElement.GetString k info)
                 (Rect.TopLeft rect) c].
Proof.
  intros Htheme Hsize k e rect info state fuel Hstate.
  assert (is_Some (TextElement.color_at k state)) as [c Hc].
  { pose proof (TextElement_new_length G node globalAlignment) as Hlen.
    fold k in Hlen. subst k. revert Hlen. unfold TextElement.new.
    apply Nat.ltb_ge in Hsize. rewrite Hsize. cbn [fst snd]. lazy zeta.
    match goal with
    | |- context [TextElement.fill_colors G ?k0] => generalize k0
    end.
    intros k1. rewrite TextElement_fill_colors_length. intros Hlen.
    destruct (Htheme "active") as [ca Hca]; [cbn; auto|].
    destruct (Htheme "inactive") as [ci Hci]; [cbn; auto|].
    destruct (Htheme "hover") as [ch Hch]; [cbn; auto 6|].
    destruct (Htheme "bright") as [cb Hcb]; [cbn; auto 6|].
    destruct (Htheme "medium") as [cm Hcm]; [cbn; auto 6|].
    destruct k1 as [cols size key dyn s]. cbn [TextElement.color] in Hlen.
    destruct cols as [|c0 [|c1 [|c2 [|? ?]]]]; cbn [length] in Hlen;
      try discriminate Hlen.
    unfold TextElement.fill_colors, TextElement.color_at, TextElement.set_color.
    cbn [TextElement.color TextElement.buttonKey TextElement.isDynamic].
    destruct state as [|[|[|?]]]; [| | |lia];
      destruct c0, c1, c2, (TextElement.no_key key), dyn;
      cbn; rewrite ?Hca, ?Hci, ?Hch, ?Hcb, ?Hcm; cbn; eexists; reflexivity. }
  exists c. split; [exact Hc|].
  cbn [Draw TextElement.kind]. unfold TextElement.Draw. rewrite Hc. reflexivity.
Qed.

Lemma TextElement_always_coloured_witness :
  let node := mkNode [Sample.tok "button"; Sample.tok "b"; Sample.tok "Buy"]
                [Sample.line [Sample.tok "hover"; Sample.tok "bright"]] in
  exists c,
    Draw Element_new (snd (fst (TextElement.new Sample.G node Pt.zero)))
      Rect.zero Sample.info INACTIVE 0 =
    Some [Font_Draw 14 "Buy" (Rect.TopLeft Rect.zero) c].
Proof.
  intros node.
  destruct (TextElement_always_coloured Sample.G node Pt.zero) with
    (e := Element_new) (rect := Rect.zero) (info := Sample.info)
    (state := INACTIVE) (fuel := 0%nat) as (c & _ & Hdraw).
  - intros name _. eexists. reflexivity.
  - cbn. lia.
  - unfold INACTIVE. lia.
  - exists c. exact Hdraw.
Defined.

(** X19.  The default colours of a text element whose node sets none: a
    button gets the theme colours "inactive", "active" and "hover" for its
    three states; a label gets "medium" and a dynamic string "bright" for
    all three, provided the palette has that colour. *)
Theorem TextElement_default_colours (G : Globals) (node : DataNode)
    (globalAlignment : Point) :
  (2 <= Node.Size node)%nat ->
  Forall (fun line => sets_color line = false) (children node) ->
  let k := snd (fst (TextElement.new G node globalAlignment)) in
  (Node.Token node 0 = "button" ->
   TextElement.no_key (TextElement.front (Node.Token node 1)) = false ->
   TextElement.color k =
   [Colors_Get G "inactive"; Colors_Get G "active"; Colors_Get G "hover"])
  /\ (Node.Token node 0 <> "button" ->
      forall c,
        Colors_Get G (if String.eqb (Node.Token node 0) "string" then "bright" else "medium")
        = Some c ->
        TextElement.color k = [Some c; Some c; Some c]).
Proof.
  intros Hsize Hlines k.
  assert (forall k0,
             TextElement.color k0 = [None; None; None] ->
             let k1 := ext (Load G node globalAlignment Element_new k0) in
             TextElement.color k1 = [None; None; None]
             /\ TextElement.buttonKey k1 = TextElement.buttonKey k0
             /\ TextElement.isDynamic k1 = TextElement.isDynamic k0) as Hload.
  { intros k0 Hk0. unfold Load.
    apply (Load_loop_ext_invariant G globalAlignment
             (fun k1 => TextElement.color k1 = [None; None; None]
                        /\ TextElement.buttonKey k1 = TextElement.buttonKey k0
                        /\ TextElement.isDynamic k1 = TextElement.isDynamic k0)).
    - apply Forall_forall. intros line Hin k1 (Hc & Hb & Hd).
      pose proof (proj1 (Forall_forall _ _) Hlines line Hin) as Hline.
      cbn beta in Hline. cbn [ParseLine TextElement.kind].
      destruct (TextElement_ParseLine_frame G line k1) as (_ & -> & -> & _ & Hcol).
      rewrite (Hcol Hline). repeat split; assumption.
    - cbn [ext]. split; [exact Hk0 | split; reflexivity]. }
  subst k. unfold TextElement.new. apply Nat.ltb_ge in Hsize. rewrite Hsize.
  cbn [fst snd]. lazy zeta. split.
  - intros Hbutton Hkey. rewrite Hbutton. cbn [String.eqb Ascii.eqb Bool.eqb].
    match goal with
    | |- context [Load G node globalAlignment Element_new ?k0] =>
        destruct (Hload k0) as (Hc & Hb & Hd);
        [destruct (3 <=? Node.Size node)%nat; reflexivity|]
    end.
    match goal with
    | |- context [TextElement.fill_colors G ?k1] =>
        destruct k1 as [cols size key dyn s]
    end.
    cbn [TextElement.color TextElement.buttonKey TextElement.isDynamic] in Hc, Hb, Hd.
    subst cols. unfold TextElement.fill_colors, TextElement.color_at, TextElement.set_color.
    cbn [TextElement.color TextElement.buttonKey TextElement.isDynamic].
    assert (TextElement.no_key key = false) as ->.
    { rewrite Hb. destruct (3 <=? Node.Size node)%nat; exact Hkey. }
    cbn. destruct (Colors_Get G "active"); reflexivity.
  - intros Hlabel c Hc0. apply String.eqb_neq in Hlabel. rewrite Hlabel.
    match goal with
    | |- context [Load G node globalAlignment Element_new ?k0] =>
        destruct (Hload k0) as (Hc & Hb & Hd); [reflexivity|]
    end.
    match goal with
    | |- context [TextElement.fill_colors G ?k1] =>
        destruct k1 as [cols size key dyn s]
    end.
    cbn [TextElement.color TextElement.buttonKey TextElement.isDynamic
         TextElement.fields0] in Hc, Hb, Hd.
    subst cols key dyn.
    unfold TextElement.fill_colors, TextElement.color_at, TextElement.set_color.
    cbn [TextElement.color TextElement.buttonKey TextElement.isDynamic].
    change (TextElement.no_key Ascii.zero) with true.
    cbn [lookup list_lookup is_null andb].
    rewrite Hc0. reflexivity.
Qed.

Lemma TextElement_default_colours_witness :
  TextElement.color
    (snd (fst (TextElement.new Sample.G
                 (mkNode [Sample.tok "label"; Sample.tok "Credits"]
                    [Sample.line [Sample.tok "size"; Sample.num "18" 18]])
                 Pt.zero))) =
  [Some Sample.white; Some Sample.white; Some Sample.white].
Proof.
  destruct (TextElement_default_colours Sample.G
              (mkNode [Sample.tok "label"; Sample.tok "Credits"]
                 [Sample.line [Sample.tok "size"; Sample.num "18" 18%float]])
              Pt.zero) as [_ Hlabel].
  - cbn. lia.
  - repeat constructor.
  - apply Hlabel; [discriminate | reflexivity].
Defined.

(** ** Interface::Draw, on the interface *)

(** X13.  [Interface::Draw] draws the elements in the order of the list:
    drawing an interface whose elements are two lists, one after the
    other, is drawing the first, then the second on the panel the first
    left, and the draw calls follow in that order. *)
Theorem Interface_Draw_in_order (G : Globals) (a : Point) (l1 l2 : list AnyElement)
    (pts : gmap string Element) (info : Information) (panel : option Panel)
    (fuel : nat) :
  Iface.Draw G (mkInterface a (l1 ++ l2) pts) info panel fuel =
  match Iface.Draw G (mkInterface a l1 pts) info panel fuel with
  | None => None
  | Some (panel1, calls1) =>
      match Iface.Draw G (mkInterface a l2 pts) info panel1 fuel with
      | None => None
      | Some (panel2, calls2) => Some (panel2, calls1 ++ calls2)
      end
  end.
Proof.
  unfold Iface.Draw, Iface.anchor. cbn [elements Interface_alignment].
  apply Iface_Draw_loop_app.
Qed.

(** X14.  Drawing never removes a zone from the panel: after
    [Interface::Draw] the panel holds the zones it had, followed by one
    zone for each visible text element with a button key, in the order of
    the elements, over the box of the element, whatever its activation
    state is.  Without a panel there is none afterwards. *)
Theorem Interface_Draw_zones (G : Globals) (i : Interface) (info : Information)
    (panel : option Panel) (fuel : nat) (panel' : option Panel)
    (calls : list DrawCall) :
  Iface.Draw G i info panel fuel = Some (panel', calls) ->
  panel' = match panel with
           | Some p =>
               Some (p ++ concat (map (button_zone (Iface.anchor G i) info) (elements i)))
           | None => None
           end.
Proof. unfold Iface.Draw. apply Iface_Draw_loop_zones. Qed.

(** X15.  The only loop in drawing is the one of a bar that is not a
    ring: an interface without such bars is drawn whatever [fuel] is
    given, and with at most one draw call for each element. *)
Theorem Interface_Draw_at_once (G : Globals) (i : Interface) (info : Information)
    (panel : option Panel) (fuel : nat) :
  forallb draws_at_once (elements i) = true ->
  exists panel' calls,
    Iface.Draw G i info panel fuel = Some (panel', calls)
    /\ length calls <= length (elements i).
Proof. unfold Iface.Draw. apply Iface_Draw_loop_at_once. Qed.

Lemma Interface_Draw_at_once_witness :
  let i := fst (Iface.Load Sample.G
                  (mkNode [Sample.tok "interface"; Sample.tok "hud"; Sample.tok "right"]
                     [Sample.line [Sample.tok "sprite"; Sample.tok "icon"];
                      Sample.line [Sample.tok "visible"; Sample.tok "if"; Sample.tok "off"];
                      Sample.line [Sample.tok "button"; Sample.tok "x"; Sample.tok "Hidden"];
                      Sample.line [Sample.tok "visible"];
                      Sample.line [Sample.tok "active"; Sample.tok "if"; Sample.tok "off"];
                      Sample.line [Sample.tok "button"; Sample.tok "b"; Sample.tok "Buy"]])
                  Interface_new) in
  exists panel' calls,
    Iface.Draw Sample.G i Sample.info (Some []) 0 = Some (panel', calls)
    /\ length calls <= 3.
Proof.
  intros i.
  apply (Interface_Draw_at_once Sample.G i Sample.info (Some []) 0). reflexivity.
Defined.

Lemma Interface_Draw_zones_witness :
  let i := fst (Iface.Load Sample.G
                  (mkNode [Sample.tok "interface"; Sample.tok "hud"; Sample.tok "right"]
                     [Sample.line [Sample.tok "sprite"; Sample.tok "icon"];
                      Sample.line [Sample.tok "visible"; Sample.tok "if"; Sample.tok "off"];
                      Sample.line [Sample.tok "button"; Sample.tok "x"; Sample.tok "Hidden"];
                      Sample.line [Sample.tok "visible"];
                      Sample.line [Sample.tok "active"; Sample.tok "if"; Sample.tok "off"];
                      Sample.line [Sample.tok "button"; Sample.tok "b"; Sample.tok "Buy"]])
                  Interface_new) in
  fst <$> Iface.Draw Sample.G i Sample.info (Some []) 1 =
  Some (Some [(mkRectangle (mkPoint 50 0) (mkPoint 0 0), "b"%char)]).
Proof.
  intros i.
  destruct (Iface.Draw Sample.G i Sample.info (Some []) 1) as [[panel' calls]|] eqn:Hdraw.
  - rewrite (Interface_Draw_zones Sample.G i Sample.info (Some []) 1 panel' calls Hdraw).
    vm_compute. reflexivity.
  - vm_compute in Hdraw. discriminate Hdraw.
Defined.

(** ** Bars and rings *)

(** X20.  A ring is drawn without a loop: whatever [fuel] is given, it
    issues either nothing or one call to the ring shader, at the center of
    the rectangle with half its width as radius, and the segment count it
    passes is 0 or the provider's count when that is above 1, never a
    count of 1 or less. *)
Theorem BarElement_ring_draw (e : Element) (k : BarElement.Fields) (rect : Rectangle)
    (info : Information) (state : nat) :
  BarElement.isRing k = true ->
  exists calls,
    (forall fuel, Draw e k rect info state fuel = Some calls)
    /\ (calls = []
        \/ exists c s,
             BarElement.color k = Some c
             /\ calls = [RingShader_Draw (Center rect) (0.5 * Rect.Width rect)%float
                           (BarElement.width k) (Info_BarValue info (BarElement.name k)) c s]
             /\ (s = 0%float
                 \/ (s = Info_BarSegments info (BarElement.name k)
                     /\ PrimFloat.ltb 1 s = true))).
Proof.
  intros Hring. cbn [Draw BarElement.kind]. unfold BarElement.Draw. rewrite Hring.
  destruct (BarElement.color k) as [c|]; [|exists []; split; [reflexivity | left; reflexivity]].
  destruct (not_d (BarElement.width k) || not_d (Info_BarValue info (BarElement.name k)));
    [exists []; split; [reflexivity | left; reflexivity]|].
  destruct (not_d (Rect.Width rect) || not_d (Rect.Height rect));
    [exists []; split; [reflexivity | left; reflexivity]|].
  eexists. split; [reflexivity|]. right. exists c. eexists.
  split; [reflexivity|]. split; [reflexivity|].
  unfold BarElement.segments_of.
  destruct (PrimFloat.leb (Info_BarSegments info (BarElement.name k)) 1).
  - left. reflexivity.
  - destruct (PrimFloat.ltb 1 (Info_BarSegments info (BarElement.name k))) eqn:Hlt.
    + right. split; [reflexivity | exact Hlt].
    + left. reflexivity.
Qed.

Lemma BarElement_ring_draw_witness :
  exists calls,
    (forall fuel,
        Draw Element_new (BarElement.mk "fuel" (Some Sample.white) 2 true)
          (mkRectangle (mkPoint 0 0) (mkPoint 10 10)) Sample.info ACTIVE fuel = Some calls)
    /\ length calls <= 1.
Proof.
  destruct (BarElement_ring_draw Element_new (BarElement.mk "fuel" (Some Sample.white) 2 true)
              (mkRectangle (mkPoint 0 0) (mkPoint 10 10)) Sample.info ACTIVE eq_refl)
    as (calls & Hdraw & Hcalls).
  exists calls. split; [exact Hdraw|].
  destruct Hcalls as [-> | (c & s & _ & -> & _)]; cbn; lia.
Defined.

Lemma Draw_loop_no_progress (start dimensions : Point) (width : double) (c : Color)
    (value filled empty v : double) :
  PrimFloat.ltb v value = true ->
  (v + filled + empty)%float = v ->
  forall fuel,
    BarElement.Draw_loop fuel start dimensions width c value filled empty v = None.
Proof.
  intros Hbelow Hstuck fuel. induction fuel as [|fuel IH]; [reflexivity|].
  cbn [BarElement.Draw_loop]. rewrite Hbelow, Hstuck, IH. reflexivity.
Qed.

(** X21.  The loop of a bar has no guard against a run that adds nothing:
    when a run and the gap after it leave the progress at 0, which is
    below the value, the loop is not finished after any number of
    iterations. *)
Theorem BarElement_Draw_no_progress (e : Element) (k : BarElement.Fields)
    (rect : Rectangle) (info : Information) (state : nat) (c : Color) :
  BarElement.color k = Some c ->
  BarElement.isRing k = false ->
  not_d (BarElement.width k) = false ->
  let value := Info_BarValue info (BarElement.name k) in
  PrimFloat.ltb 0 value = true ->
  let segments := BarElement.segments_of info k in
  let gap := BarElement.empty_of segments (BarElement.width k)
               (Pt.Length (Pt.opp (Dimensions rect))) in
  let filled := BarElement.filled_of segments gap in
  (0 + filled + gap)%float = 0%float ->
  forall fuel, Draw e k rect info state fuel = None.
Proof.
  intros Hcolor Hring Hwidth value Hpos segments gap filled Hstuck fuel.
  cbn [Draw BarElement.kind]. unfold BarElement.Draw.
  rewrite Hcolor, Hwidth, Hring. fold value. rewrite (ltb_zero_not_d value Hpos).
  cbn [orb]. apply Draw_loop_no_progress; assumption.
Qed.

Lemma BarElement_Draw_no_progress_witness :
  let info := mkInformation (fun _ => true) (fun _ => 1%float) (fun _ => 0x1p60%float)
                (fun s => s) (fun _ => None) (fun _ => Pt.zero) (fun _ => 0%Z)
                Sample.white in
  Draw Element_new (BarElement.mk "fuel" (Some Sample.white) 5 false)
    (mkRectangle (mkPoint 0 0) (mkPoint 3 4)) info ACTIVE 1000 = None.
Proof.
  intros info.
  apply (BarElement_Draw_no_progress Element_new
           (BarElement.mk "fuel" (Some Sample.white) 5 false)
           (mkRectangle (mkPoint 0 0) (mkPoint 3 4)) info ACTIVE Sample.white);
    vm_compute; reflexivity.
Defined.

Lemma BarElement_ParseLine_frame (G : Globals) (line : DataNode) (k : BarElement.Fields) :
  BarElement.name (fst (BarElement.ParseLine G line k)) = BarElement.name k
  /\ BarElement.isRing (fst (BarElement.ParseLine G line k)) = BarElement.isRing k.
Proof.
  unfold BarElement.ParseLine.
  repeat match goal with
         | |- context [if ?c then _ else _] => destruct c
         end; split; reflexivity.
Qed.

(** X22.  A bar or ring constructed from a node of at least two tokens is
    named by the second token and is a ring exactly when the keyword is
    [ring], whatever its lines say; and it has a colour whenever the
    palette has the colour "active". *)
Theorem BarElement_new_fields (G : Globals) (node : DataNode) (globalAlignment : Point) :
  (2 <= Node.Size node)%nat ->
  let k := snd (fst (BarElement.new G node globalAlignment)) in
  BarElement.name k = Node.Token node 1
  /\ BarElement.isRing k = String.eqb (Node.Token node 0) "ring"
  /\ (is_Some (Colors_Get G "active") -> is_Some (BarElement.color k)).
Proof.
  intros Hsize k. subst k. unfold BarElement.new.
  apply Nat.ltb_ge in Hsize. rewrite Hsize. cbn [fst snd]. lazy zeta.
  match goal with
  | |- context [ext (Load G node globalAlignment Element_new ?k0)] =>
      assert (BarElement.name (ext (Load G node globalAlignment Element_new k0)) =
              Node.Token node 1
              /\ BarElement.isRing (ext (Load G node globalAlignment Element_new k0)) =
                 String.eqb (Node.Token node 0) "ring") as [Hname Hring];
      [|generalize dependent (ext (Load G node globalAlignment Element_new k0))]
  end.
  { unfold Load.
    apply (Load_loop_ext_invariant G globalAlignment
             (fun k1 => BarElement.name k1 = Node.Token node 1
                        /\ BarElement.isRing k1 = String.eqb (Node.Token node 0) "ring")).
    - apply Forall_forall. intros line _ k1 [Hn Hr]. cbn [ParseLine BarElement.kind].
      destruct (BarElement_ParseLine_frame G line k1) as [-> ->]. split; assumption.
    - split; reflexivity. }
  intros k1 Hname Hring.
  destruct (BarElement.color k1) as [c|] eqn:Hc; cbn [is_null].
  - rewrite Hc. repeat split; try assumption. intros _. eexists. reflexivity.
  - cbn [BarElement.name BarElement.isRing BarElement.color].
    repeat split; try assumption. intros Hactive. exact Hactive.
Qed.

Lemma BarElement_new_fields_witness :
  let k := snd (fst (BarElement.new Sample.G
                       (mkNode [Sample.tok "ring"; Sample.tok "shields"]
                          [Sample.line [Sample.tok "size"; Sample.num "3" 3]])
                       Pt.zero)) in
  BarElement.name k = "shields" /\ BarElement.isRing k = true.
Proof.
  intros k.
  destruct (BarElement_new_fields Sample.G
              (mkNode [Sample.tok "ring"; Sample.tok "shields"]
                 [Sample.line [Sample.tok "size"; Sample.num "3" 3%float]])
              Pt.zero) as (Hname & Hring & _).
  - cbn. lia.
  - split; [exact Hname | exact Hring].
Defined.

(** ** The last resizing line wins *)

Section LastResize.
Context {K : Type} `{Kind K} (G : Globals) (globalAlignment : Point).

Lemma Load_child_width_kept (child : DataNode) (st : Loading K) :
  is_width child = false -> is_from_to child = false ->
  X (Dimensions (bounds (base (Load_child G globalAlignment child st)))) =
  X (Dimensions (bounds (base st))).
Proof.
  intros Hwidth Hfromto. unfold Load_child.
  fold (is_dimensions child). fold (is_width child). fold (is_height child).
  unfold is_from_to in Hfromto. rewrite Hwidth, Hfromto. unfold Load_height.
  destruct (ParseLine G child (ext st)) as [k recognized].
  destruct (ParseAlignment child (alignment (base st)) 1) as [a log].
  repeat match goal with
         | |- context [if ?c then _ else _] => destruct c
         end; reflexivity.
Qed.

Lemma Load_child_height_kept (child : DataNode) (st : Loading K) :
  is_height child = false -> is_from_to child = false ->
  Y (Dimensions (bounds (base (Load_child G globalAlignment child st)))) =
  Y (Dimensions (bounds (base st))).
Proof.
  intros Hheight Hfromto. unfold Load_child.
  fold (is_dimensions child). fold (is_width child). fold (is_height child).
  unfold is_from_to in Hfromto. rewrite Hheight, Hfromto. unfold Load_width.
  destruct (ParseLine G child (ext st)) as [k recognized].
  destruct (ParseAlignment child (alignment (base st)) 1) as [a log].
  repeat match goal with
         | |- context [if ?c then _ else _] => destruct c
         end; reflexivity.
Qed.

Lemma Load_loop_width_kept (lines : list DataNode) :
  forall st : Loading K,
    Forall (fun c => is_width c = false /\ is_from_to c = false) lines ->
    X (Dimensions (bounds (base (Load_loop G globalAlignment lines st)))) =
    X (Dimensions (bounds (base st))).
Proof.
  induction lines as [|c lines IH]; intros st Hall; [reflexivity|].
  inversion Hall as [|? ? [Hw Hft] Hrest]; subst.
  rewrite Load_loop_cons, (IH _ Hrest). apply Load_child_width_kept; assumption.
Qed.

Lemma Load_loop_height_kept (lines : list DataNode) :
  forall st : Loading K,
    Forall (fun c => is_height c = false /\ is_from_to c = false) lines ->
    Y (Dimensions (bounds (base (Load_loop G globalAlignment lines st)))) =
    Y (Dimensions (bounds (base st))).
Proof.
  induction lines as [|c lines IH]; intros st Hall; [reflexivity|].
  inversion Hall as [|? ? [Hh Hft] Hrest]; subst.
  rewrite Load_loop_cons, (IH _ Hrest). apply Load_child_height_kept; assumption.
Qed.

(** X23.  The width of an element after [Element::Load] is the value of
    the last line that sets it ([width] or [dimensions]), and its height
    the value of the last [height] or [dimensions] line, as long as no
    [from ... to ...] line comes after: [center], [from <x> <y>], [align]
    and [pad] lines, and the lines of the class, leave the dimensions. *)
Theorem Load_last_resize (node : DataNode) (e : Element) (k : K)
    (pre post : list DataNode) (child : DataNode) :
  children node = pre ++ child :: post ->
  (is_width child = true ->
   Forall (fun c => is_width c = false /\ is_from_to c = false) post ->
   X (Dimensions (bounds (base (Load G node globalAlignment e k)))) = Node.Value child 1)
  /\ (is_height child = true ->
      Forall (fun c => is_height c = false /\ is_from_to c = false) post ->
      Y (Dimensions (bounds (base (Load G node globalAlignment e k)))) =
      Node.Value child (if is_dimensions child then 2 else 1)).
Proof.
  intros Hchildren. unfold Load. rewrite Hchildren, Load_loop_app, Load_loop_cons.
  set (st := Load_loop G globalAlignment pre _).
  split.
  - intros Hwidth Hpost. rewrite (Load_loop_width_kept post _ Hpost).
    rewrite Load_child_resize by (rewrite Hwidth; reflexivity).
    rewrite Hwidth. cbn [base bounds set_bounds]. unfold Load_width, Load_height.
    destruct (is_height child); reflexivity.
  - intros Hheight Hpost. rewrite (Load_loop_height_kept post _ Hpost).
    rewrite Load_child_resize by (rewrite Hheight; apply orb_true_r).
    rewrite Hheight. cbn [base bounds set_bounds]. unfold Load_height.
    destruct (is_dimensions child); reflexivity.
Qed.
End LastResize.

Lemma Load_last_resize_witness :
  Dimensions (bounds (base (Load Sample.G
                              (mkNode [Sample.tok "box"; Sample.tok "p"]
                                 [Sample.line [Sample.tok "width"; Sample.num "4" 4];
                                  Sample.line [Sample.tok "dimensions"; Sample.num "10" 10;
                                               Sample.num "20" 20];
                                  Sample.line [Sample.tok "from"; Sample.num "1" 1;
                                               Sample.num "2" 2]])
                              (mkPoint 1 1) Element_new tt))) =
  mkPoint 10 20.
Proof.
  destruct (Load_last_resize (K := unit) Sample.G (mkPoint 1 1)
              (mkNode [Sample.tok "box"; Sample.tok "p"]
                 [Sample.line [Sample.tok "width"; Sample.num "4" 4%float];
                  Sample.line [Sample.tok "dimensions"; Sample.num "10" 10%float;
                               Sample.num "20" 20%float];
                  Sample.line [Sample.tok "from"; Sample.num "1" 1%float;
                               Sample.num "2" 2%float]])
              Element_new tt
              [Sample.line [Sample.tok "width"; Sample.num "4" 4%float]]
              [Sample.line [Sample.tok "from"; Sample.num "1" 1%float; Sample.num "2" 2%float]]
              (Sample.line [Sample.tok "dimensions"; Sample.num "10" 10%float;
                            Sample.num "20" 20%float])
              eq_refl) as [Hw Hh].
  apply Point_eq.
  - rewrite Hw; [reflexivity | reflexivity | repeat constructor].
  - rewrite Hh; [reflexivity | reflexivity | repeat constructor].
Defined.
